(** * iremoted: a shallow embedding of [iremoted.c]

    The program is a thin client of the IOKit HID framework and of the
    Apple-event manager.  Every framework call is recorded in a trace and
    answered by an explicit environment; the three process-wide variables
    are threaded as state; [exit] is an outcome that cuts the rest of the
    computation short. *)

From Stdlib Require Import ZArith List String Ascii Bool Lia Sorted.
From Stdlib Require DecimalString HexadecimalString HexadecimalN.
Import ListNotations.

Local Open Scope string_scope.
Local Open Scope list_scope.
Local Open Scope Z_scope.

(** ** Constants of the system headers *)

Definition kIOReturnSuccess : Z := 0.   (* IOKit/IOReturn.h *)
Definition KERN_SUCCESS : Z := 0.       (* mach/kern_return.h *)
Definition S_OK : Z := 0.               (* CoreFoundation/CFPlugInCOM.h *)
Definition noErr : Z := 0.              (* MacTypes.h *)
Definition EX_OSERR : Z := 71.          (* sysexits.h *)

(* IOKit/hid/IOHIDUsageTables.h *)
Definition kHIDPage_GenericDesktop : Z := 0x01.
Definition kHIDUsage_GD_SystemAppMenu : Z := 0x86.
Definition kHIDUsage_GD_SystemMenu : Z := 0x89.
Definition kHIDUsage_GD_SystemMenuRight : Z := 0x8A.
Definition kHIDUsage_GD_SystemMenuLeft : Z := 0x8B.
Definition kHIDUsage_GD_SystemMenuUp : Z := 0x8C.
Definition kHIDUsage_GD_SystemMenuDown : Z := 0x8D.

(* The four-character codes of the anonymous enum. *)
Definition keynoteEventClass : Z := 0x4B6E7463. (* 'Kntc' *)
Definition slideForward : Z := 0x73746546.      (* 'steF' *)
Definition slideBackward : Z := 0x73746542.     (* 'steB' *)

Definition keynoteID : string := "com.apple.iWork.Keynote".

(** ** Formatting, as [printf] does it *)

Definition nl : string := String (ascii_of_nat 10) EmptyString.

(* The cast [(UInt32)x]. *)
Definition UInt32 (x : Z) : Z := x mod 2 ^ 32.

(* [%x] of a 32-bit unsigned value. *)
Definition fmt_x (x : Z) : string :=
  HexadecimalString.NilZero.string_of_uint (N.to_hex_uint (Z.to_N (UInt32 x))).

(* [%#lx]: the alternate form puts 0x before a nonzero value only. *)
Definition fmt_alt_lx (x : Z) : string :=
  if UInt32 x =? 0 then "0" else ("0x" ++ fmt_x x)%string.

(* [%d]. *)
Definition fmt_d (x : Z) : string :=
  DecimalString.NilZero.string_of_int (Z.to_int x).

(** ** What the program does to the outside *)

Inductive Stream := stdout | stderr.

Inductive OSCall :=
| IOServiceNameMatching (name : string)
| IOServiceGetMatchingService
| IOObjectGetClass
| IOCreatePlugInInterfaceForService
| QueryInterface
| PlugInRelease
| IOObjectRelease
| copyMatchingElements
| deviceOpen
| deviceClose
| deviceRelease
| allocQueue
| queueCreate (flags depth : Z)
| queueAddElement (cookie : Z)
| createAsyncEventSource
| setEventCallout
| CFRunLoopAddSource
| queueStart
| CFRunLoopRun
| getNextEvent
| queueStop
| queueDispose
| queueRelease
| AEBuildAppleEvent (eventClass eventID : Z) (target : string)
| AESend
| AEDisposeDesc.

Inductive Action :=
| Output (f : Stream) (s : string)
| Flush (f : Stream)
| Call (c : OSCall).

(** ** The process-wide variables *)

Record Globals := mkGlobals {
  buttonNextID : Z;
  buttonPreviousID : Z;
  driveKeynote : Z
}.

(* Their initialisers, lines 60, 61 and 80. *)
Definition initial_globals : Globals :=
  {| buttonNextID := 0; buttonPreviousID := 0; driveKeynote := 0 |}.

(** ** The monad: a trace, the globals, and how the computation ended *)

Inductive Outcome (A : Type) :=
| Ret (a : A)          (* ran to its end *)
| Exit (status : Z)    (* called exit(status) *)
| Fault                (* dereferenced a null pointer *)
| Diverge.             (* the fuel of a loop ran out *)

Arguments Ret {A} a.
Arguments Exit {A} status.
Arguments Fault {A}.
Arguments Diverge {A}.

Record Run (A : Type) := mkRun {
  trace : list Action;
  globals : Globals;
  outcome : Outcome A
}.

Arguments mkRun {A} trace globals outcome.
Arguments trace {A} r.
Arguments globals {A} r.
Arguments outcome {A} r.

Definition M (A : Type) : Type := Globals -> Run A.

Definition ret {A} (a : A) : M A := fun g => mkRun [] g (Ret a).

Definition bind {A B} (m : M A) (k : A -> M B) : M B :=
  fun g =>
    let r := m g in
    match outcome r with
    | Ret a =>
        let r' := k a (globals r) in
        mkRun (trace r ++ trace r') (globals r') (outcome r')
    | Exit n => mkRun (trace r) (globals r) (Exit n)
    | Fault => mkRun (trace r) (globals r) Fault
    | Diverge => mkRun (trace r) (globals r) Diverge
    end.

Notation "x <- m ;; k" := (bind m (fun x => k))
  (at level 61, m at next level, right associativity).
Notation "m ;; k" := (bind m (fun _ => k))
  (at level 61, right associativity).

Definition emit (a : Action) : M unit := fun g => mkRun [a] g (Ret tt).
Definition call (c : OSCall) : M unit := emit (Call c).
Definition fprintf (f : Stream) (s : string) : M unit := emit (Output f s).
Definition fflush (f : Stream) : M unit := emit (Flush f).
Definition exit {A} (status : Z) : M A := fun g => mkRun [] g (Exit status).
Definition fault {A} : M A := fun g => mkRun [] g Fault.
Definition diverge {A} : M A := fun g => mkRun [] g Diverge.
Definition get : M Globals := fun g => mkRun [] g (Ret g).
Definition put (g' : Globals) : M unit := fun _ => mkRun [] g' (Ret tt).

(** ** Views of a trace *)

(* The strings written to one stream, in order. *)
Fixpoint written (f : Stream) (t : list Action) : list string :=
  match t with
  | [] => []
  | Output stdout s :: t' =>
      match f with stdout => s :: written f t' | stderr => written f t' end
  | Output stderr s :: t' =>
      match f with stderr => s :: written f t' | stdout => written f t' end
  | _ :: t' => written f t'
  end.

(* The framework calls, in order. *)
Fixpoint calls (t : list Action) : list OSCall :=
  match t with
  | [] => []
  | Call c :: t' => c :: calls t'
  | _ :: t' => calls t'
  end.

(* The event IDs of the Apple events the program asked to build: one per
   invocation of [KeynoteChangeSlide]. *)
Fixpoint slide_requests (t : list Action) : list Z :=
  match t with
  | [] => []
  | Call (AEBuildAppleEvent _ eventID _) :: t' => eventID :: slide_requests t'
  | _ :: t' => slide_requests t'
  end.

(** ** [KeynoteChangeSlide], lines 111-153

    [build] and [send] are the statuses [AEBuildAppleEvent] and [AESend]
    answer with. *)

Definition KeynoteChangeSlide (eventID : Z) (build send : Z) : M Z :=
  call (AEBuildAppleEvent keynoteEventClass eventID keynoteID) ;;
  if negb (build =? noErr) then
    fprintf stderr
      ("Failed to build Apple event (error " ++ fmt_d build ++ ")."
       ++ nl)%string ;;
    ret build
  else
    call AESend ;;
    (if negb (send =? noErr) then
       fprintf stderr
         ("Failed to send Apple event (error " ++ fmt_d send ++ ")."
          ++ nl)%string
     else ret tt) ;;
    call AEDisposeDesc ;;
    call AEDisposeDesc ;;
    ret send.

(** ** [print_errmsg_if_io_err] and [print_errmsg_if_err], lines 155-176 *)

Section ErrorReporting.

(* [mach_error_string] of libSystem. *)
Variable mach_error_string : Z -> string.

Definition print_errmsg_if_io_err (expr : Z) (msg : string) : M unit :=
  let err := expr in
  if negb (err =? kIOReturnSuccess) then
    fprintf stderr
      ("*** " ++ msg ++ " - " ++ mach_error_string err ++ "(" ++ fmt_x err
       ++ ", " ++ fmt_d (Z.land err 0xffffff) ++ ")." ++ nl)%string ;;
    fflush stderr ;;
    exit EX_OSERR
  else ret tt.

Definition print_errmsg_if_err (expr : bool) (msg : string) : M unit :=
  if expr then
    fprintf stderr ("*** " ++ msg ++ "." ++ nl)%string ;;
    fflush stderr ;;
    exit EX_OSERR
  else ret tt.

End ErrorReporting.

(** ** [QueueCallbackFunction], lines 178-201 *)

Record IOHIDEventStruct := mkEvent {
  elementCookie : Z;
  value : Z
}.

(* What the framework answers during one invocation of the callback: the
   [i]-th call of [getNextEvent] returns [fst (nextEvent i)] and, when that is
   zero, stores [snd (nextEvent i)]; the Apple-event calls made while that
   event is handled answer [aeBuild i] and [aeSend i]. *)
Record QueueEnv := mkQueueEnv {
  nextEvent : nat -> Z * IOHIDEventStruct;
  aeBuild : nat -> Z;
  aeSend : nat -> Z
}.

(* The line of lines 190-191. *)
Definition event_line (event : IOHIDEventStruct) : string :=
  (fmt_alt_lx (UInt32 (elementCookie event)) ++ " "
   ++ (if (value event =? 0)%Z then "depressed" else "pressed") ++ nl)%string.

(* The body of [if (!ret)], lines 190-198. *)
Definition dispatch_event (event : IOHIDEventStruct) (build send : Z)
  : M unit :=
  fprintf stdout (event_line event) ;;
  fflush stdout ;;
  g <- get ;;
  if negb (value event =? 0) && negb (driveKeynote g =? 0) then
    if elementCookie event =? buttonNextID g then
      _ <- KeynoteChangeSlide slideForward build send ;; ret tt
    else if elementCookie event =? buttonPreviousID g then
      _ <- KeynoteChangeSlide slideBackward build send ;; ret tt
    else ret tt
  else ret tt.

(* [while (!ret)]: [i] counts the calls of [getNextEvent] made so far. *)
Fixpoint callback_loop (fuel : nat) (env : QueueEnv) (i : nat) : M unit :=
  match fuel with
  | O => diverge
  | S fuel' =>
      call getNextEvent ;;
      let '(r, event) := nextEvent env i in
      if r =? 0 then
        dispatch_event event (aeBuild env i) (aeSend env i) ;;
        callback_loop fuel' env (S i)
      else ret tt
  end.

Definition QueueCallbackFunction (fuel : nat) (env : QueueEnv) : M unit :=
  callback_loop fuel env 0%nat.

(** ** The cookie record and [getHIDCookies], lines 63-71 and 286-365 *)

Record cookie_struct := mkCookies {
  gButtonCookie_SystemAppMenu : Z;
  gButtonCookie_SystemMenuSelect : Z;
  gButtonCookie_SystemMenuRight : Z;
  gButtonCookie_SystemMenuLeft : Z;
  gButtonCookie_SystemMenuUp : Z;
  gButtonCookie_SystemMenuDown : Z
}.

(* [memset(cookies, 0, sizeof( *cookies))]. *)
Definition zero_cookies : cookie_struct := mkCookies 0 0 0 0 0 0.

(* A value stored in an element dictionary: a CFNumber, with the [long] that
   [CFNumberGetValue] extracts when the conversion succeeds, or an object of
   another type. *)
Inductive CFObject :=
| CFNumber (asLong : option Z)
| CFOther.

(* An element dictionary, at the three keys the program looks up; [None] is
   the null reference [CFDictionaryGetValue] returns for an absent key. *)
Record Element := mkElement {
  kIOHIDElementCookieKey : option CFObject;
  kIOHIDElementUsageKey : option CFObject;
  kIOHIDElementUsagePageKey : option CFObject
}.

(* The two tests guarding each read: [None] is [continue]. *)
Definition CFNumberGetValue (object : option CFObject) : option Z :=
  match object with
  | Some (CFNumber (Some number)) => Some number
  | _ => None
  end.

(* A device interface handle, [IOHIDDeviceInterface **]: null, a handle
   whose interface pointer is null, or a handle on a live interface. *)
Inductive Handle := NullHandle | EmptyHandle | DeviceHandle.

(* [switch (usage)] under [usagePage == kHIDPage_GenericDesktop], lines
   338-361. *)
Definition record_cookie (usage cookie : Z) (cookies : cookie_struct)
  : M cookie_struct :=
  let 'mkCookies cAppMenu cSelect cRight cLeft cUp cDown := cookies in
  if usage =? kHIDUsage_GD_SystemAppMenu then
    ret (mkCookies cookie cSelect cRight cLeft cUp cDown)
  else if usage =? kHIDUsage_GD_SystemMenu then
    ret (mkCookies cAppMenu cookie cRight cLeft cUp cDown)
  else if usage =? kHIDUsage_GD_SystemMenuRight then
    g <- get ;;
    put (mkGlobals cookie (buttonPreviousID g) (driveKeynote g)) ;;
    ret (mkCookies cAppMenu cSelect cookie cLeft cUp cDown)
  else if usage =? kHIDUsage_GD_SystemMenuLeft then
    g <- get ;;
    put (mkGlobals (buttonNextID g) cookie (driveKeynote g)) ;;
    ret (mkCookies cAppMenu cSelect cRight cookie cUp cDown)
  else if usage =? kHIDUsage_GD_SystemMenuUp then
    ret (mkCookies cAppMenu cSelect cRight cLeft cookie cDown)
  else if usage =? kHIDUsage_GD_SystemMenuDown then
    ret (mkCookies cAppMenu cSelect cRight cLeft cUp cookie)
  else ret cookies.

(* One turn of the [for] loop, lines 318-361.  The cast
   [(IOHIDElementCookie)number] keeps the low 32 bits. *)
Definition scan_element (element : Element) (cookies : cookie_struct)
  : M cookie_struct :=
  match CFNumberGetValue (kIOHIDElementCookieKey element) with
  | None => ret cookies
  | Some number =>
      let cookie := UInt32 number in
      match CFNumberGetValue (kIOHIDElementUsageKey element) with
      | None => ret cookies
      | Some usage =>
          match CFNumberGetValue (kIOHIDElementUsagePageKey element) with
          | None => ret cookies
          | Some usagePage =>
              if usagePage =? kHIDPage_GenericDesktop then
                record_cookie usage cookie cookies
              else ret cookies
          end
      end
  end.

Fixpoint scan_elements (elements : list Element) (cookies : cookie_struct)
  : M cookie_struct :=
  match elements with
  | [] => ret cookies
  | element :: rest =>
      cookies' <- scan_element element cookies ;;
      scan_elements rest cookies'
  end.

(* [malloc_ok]: whether [malloc] returned memory; [result] and [elements]:
   what [copyMatchingElements] answers. *)
Definition getHIDCookies (malloc_ok : bool) (result : Z)
  (elements : list Element) (handle : Handle) : M cookie_struct :=
  if negb malloc_ok then
    fprintf stderr ("Failed to allocate cookie memory." ++ nl)%string ;;
    exit 1
  else
    let cookies := zero_cookies in
    match handle with
    | NullHandle | EmptyHandle => ret cookies
    | DeviceHandle =>
        call copyMatchingElements ;;
        if negb (result =? kIOReturnSuccess) then
          fprintf stderr ("Failed to copy cookies." ++ nl)%string ;;
          exit 1
        else scan_elements elements cookies
    end.

(** ** The environment of a whole run

    One field per framework answer the program looks at. *)

Record World := mkWorld {
  mach_error_string : Z -> string;
  hidService : Z;                        (* IOServiceGetMatchingService *)
  getClass_result : Z;                   (* IOObjectGetClass *)
  createPlugIn_result : Z;               (* IOCreatePlugInInterfaceForService *)
  queryInterface_result : Z;             (* QueryInterface *)
  deviceInterface : Handle;              (* what QueryInterface stores *)
  cookies_malloc_ok : bool;              (* malloc in getHIDCookies *)
  copyMatchingElements_result : Z;
  elements : list Element;
  objectRelease_result : Z;              (* IOObjectRelease *)
  open_setupAndRun : Z;                  (* open, line 431 *)
  open_doRun : Z;                        (* open, line 277 *)
  allocQueue_ok : bool;                  (* allocQueue returned a queue *)
  privateData_malloc_ok : bool;          (* malloc in addQueueCallbacks *)
  createAsyncEventSource_result : Z;
  setEventCallout_result : Z;
  wakeups : list QueueEnv                (* one per dispatch of the callback *)
}.

(** ** [addQueueCallbacks], lines 203-225 *)

Definition addQueueCallbacks (w : World) : M bool :=
  (if privateData_malloc_ok w then ret tt else fault) ;;
  call createAsyncEventSource ;;
  if negb (createAsyncEventSource_result w =? kIOReturnSuccess) then ret false
  else
    call setEventCallout ;;
    if negb (setEventCallout_result w =? kIOReturnSuccess) then ret false
    else
      call CFRunLoopAddSource ;;
      ret true.

(** ** [processQueue], lines 227-270 *)

(* The run loop dispatches the callback once per wake-up. *)
Fixpoint dispatch_wakeups (fuel : nat) (ws : list QueueEnv) : M unit :=
  match ws with
  | [] => ret tt
  | env :: rest =>
      QueueCallbackFunction fuel env ;;
      dispatch_wakeups fuel rest
  end.

(* [CFRunLoopRun()]: a run loop dispatches only the sources added to it. *)
Definition runLoopRun (fuel : nat) (w : World) (sourceAdded : bool)
  : M unit :=
  call CFRunLoopRun ;;
  dispatch_wakeups fuel (if sourceAdded then wakeups w else []).

Definition processQueue (fuel : nat) (w : World) (cookies : cookie_struct)
  : M unit :=
  call allocQueue ;;
  if negb (allocQueue_ok w) then
    fprintf stderr ("Failed to allocate event queue." ++ nl)%string ;;
    ret tt
  else
    call (queueCreate 0 8) ;;
    call (queueAddElement (gButtonCookie_SystemAppMenu cookies)) ;;
    call (queueAddElement (gButtonCookie_SystemMenuSelect cookies)) ;;
    call (queueAddElement (gButtonCookie_SystemMenuRight cookies)) ;;
    call (queueAddElement (gButtonCookie_SystemMenuLeft cookies)) ;;
    call (queueAddElement (gButtonCookie_SystemMenuUp cookies)) ;;
    call (queueAddElement (gButtonCookie_SystemMenuDown cookies)) ;;
    sourceAdded <- addQueueCallbacks w ;;
    call queueStart ;;
    runLoopRun fuel w sourceAdded ;;
    call queueStop ;;
    call queueDispose ;;
    call queueRelease.

(** ** [doRun], lines 272-284 *)

Definition doRun (fuel : nat) (w : World) (cookies : cookie_struct) : M unit :=
  call deviceOpen ;;
  let ioReturnValue := open_doRun w in
  processQueue fuel w cookies ;;
  (if ioReturnValue =? KERN_SUCCESS then call deviceClose else ret tt) ;;
  call deviceRelease.

(** ** [createHIDDeviceInterface], lines 367-398 *)

Definition createHIDDeviceInterface (w : World) (hdi : Handle) : M Handle :=
  call IOObjectGetClass ;;
  print_errmsg_if_io_err (mach_error_string w) (getClass_result w)
    "Failed to get class name." ;;
  call IOCreatePlugInInterfaceForService ;;
  if negb (createPlugIn_result w =? kIOReturnSuccess) then ret hdi
  else
    call QueryInterface ;;
    print_errmsg_if_err (negb (queryInterface_result w =? S_OK))
      ("Failed to create device interface." ++ nl)%string ;;
    call PlugInRelease ;;
    ret (deviceInterface w).

(** ** [setupAndRun], lines 400-439 *)

Definition setupAndRun (fuel : nat) (w : World) : M unit :=
  call (IOServiceNameMatching "AppleIRController") ;;
  call IOServiceGetMatchingService ;;
  if hidService w =? 0 then
    fprintf stderr ("Apple Infrared Remote not found." ++ nl)%string ;;
    exit 1
  else
    hidDeviceInterface <- createHIDDeviceInterface w NullHandle ;;
    cookies <- getHIDCookies (cookies_malloc_ok w)
                 (copyMatchingElements_result w) (elements w)
                 hidDeviceInterface ;;
    call IOObjectRelease ;;
    print_errmsg_if_io_err (mach_error_string w) (objectRelease_result w)
      "Failed to release HID." ;;
    match hidDeviceInterface with
    | NullHandle =>
        fprintf stderr ("No HID." ++ nl)%string ;;
        exit 1
    | EmptyHandle => fault
    | DeviceHandle =>
        call deviceOpen ;;
        let ioReturnValue := open_setupAndRun w in
        doRun fuel w cookies ;;
        (if ioReturnValue =? KERN_SUCCESS then call deviceClose else ret tt) ;;
        call deviceRelease
    end.

(** ** [usage] and [main], lines 98-109 and 441-466 *)

Definition PROGNAME : string := "iremoted".
Definition PROGVERS : string := "2.0".

Definition usage : M unit :=
  fprintf stdout (PROGNAME ++ " (version " ++ PROGVERS ++ ")" ++ nl)%string ;;
  fprintf stdout
    ("Copyright (c) 2006-2008 Amit Singh. All Rights Reserved." ++ nl)%string ;;
  fprintf stdout
    ("Displays events received from the Apple Infrared Remote." ++ nl)%string ;;
  fprintf stdout
    ("Usage: " ++ PROGNAME ++ " [OPTIONS...]" ++ nl ++ nl ++ "Options:"
     ++ nl)%string ;;
  fprintf stdout
    ("  -h, --help    print this help message and exit" ++ nl)%string ;;
  fprintf stdout
    ("  -k, --keynote use forward/backward button presses for Keynote "
     ++ "slide transition" ++ nl ++ nl)%string ;;
  fprintf stdout
    ("Please report bugs using the following contact information:" ++ nl
     ++ "<URL:http://www.osxbook.com/software/bugs/>" ++ nl)%string.

Definition opt_h : Z := 104. (* 'h' *)
Definition opt_k : Z := 107. (* 'k' *)

(* The [while] loop of [main] over the successive values [getopt_long]
   returns; it ends at -1, which [getopt_long] returns when the options are
   exhausted.  The trace holds what the program itself writes: the
   diagnostic [getopt_long] prints on standard error before it returns '?'
   for an option it does not know is not part of it. *)
Fixpoint parse_options (opts : list Z) : M unit :=
  match opts with
  | [] => ret tt
  | c :: rest =>
      if c =? -1 then ret tt
      else if c =? opt_h then usage ;; exit 0
      else if c =? opt_k then
        g <- get ;;
        put (mkGlobals (buttonNextID g) (buttonPreviousID g) 1) ;;
        parse_options rest
      else usage ;; exit 1
  end.

Definition main (fuel : nat) (opts : list Z) (w : World) : M Z :=
  parse_options opts ;;
  setupAndRun fuel w ;;
  ret 0.


(* A whole run of the program, from the initial values of the globals. *)
Definition run_main (fuel : nat) (opts : list Z) (w : World) : Run Z :=
  main fuel opts w initial_globals.

(** * Vocabulary of the properties *)

(* A computation that returns without touching the globals. *)
Definition pure_run {A} (m : M A) (g : Globals) (a : A) : Prop :=
  m g = mkRun (trace (m g)) g (Ret a).

(* The events one invocation of the callback takes off the queue, starting
   at the [i]-th call of [getNextEvent]. *)
Fixpoint dequeued (fuel : nat) (env : QueueEnv) (i : nat)
  : list IOHIDEventStruct :=
  match fuel with
  | O => []
  | S fuel' =>
      if fst (nextEvent env i) =? 0
      then snd (nextEvent env i) :: dequeued fuel' env (S i)
      else []
  end.

(* No event is left on the queue within the first [n] calls, and the
   [n]-th call reports the queue empty. *)
Definition drained_at (env : QueueEnv) (n : nat) : Prop :=
  (forall i, (i < n)%nat -> fst (nextEvent env i) = 0) /\
  fst (nextEvent env n) <> 0.

(* What the loop does for the events at indices [i .. i + n - 1]. *)
Fixpoint handled (env : QueueEnv) (g : Globals) (i n : nat) : list Action :=
  match n with
  | O => []
  | S n' =>
      Call getNextEvent ::
      trace (dispatch_event (snd (nextEvent env i))
               (aeBuild env i) (aeSend env i) g)
      ++ handled env g (S i) n'
  end.

(* The forwarding rule in the words of the interface description: a press
   on a navigation button is forwarded when forwarding is on, the next
   button as a step forward and the previous button as a step backward. *)
Definition forwarding_as_specified (g : Globals) (event : IOHIDEventStruct)
  (build send : Z) : Prop :=
  let requests := slide_requests (trace (dispatch_event event build send g)) in
  (requests <> [] <->
   driveKeynote g <> 0 /\ value event <> 0 /\
   (elementCookie event = buttonNextID g \/
    elementCookie event = buttonPreviousID g))
  /\ (requests <> [] -> elementCookie event = buttonNextID g ->
      requests = [slideForward])
  /\ (requests <> [] -> elementCookie event = buttonPreviousID g ->
      requests = [slideBackward]).

(* The options [getopt_long] hands to the loop of [main] before -1. *)
Fixpoint options_seen (opts : list Z) : list Z :=
  match opts with
  | [] => []
  | c :: rest => if c =? -1 then [] else c :: options_seen rest
  end.

(* Forwarding is on; the identifiers are still zero, or resolved to 21
   and 22. *)
Definition unresolved_forwarding : Globals := mkGlobals 0 0 1.
Definition resolved_forwarding : Globals := mkGlobals 21 22 1.

(* Two presses. *)
Definition press_cookie_zero : IOHIDEventStruct := mkEvent 0 1.
Definition press_previous : IOHIDEventStruct := mkEvent 22 1.

(* A queue holding a press and a release of cookie 21; the third call of
   [getNextEvent] reports it empty. *)
Definition two_events : QueueEnv :=
  mkQueueEnv
    (fun i => match i with
              | O => (0, mkEvent 21 1)
              | 1%nat => (0, mkEvent 21 0)
              | _ => (1, mkEvent 0 0)
              end)
    (fun _ => 0) (fun _ => 0).

(* What the loop of [getHIDCookies] reads from an element it does not skip:
   its usage and its cookie, when all three numbers can be read and the
   usage page is Generic Desktop. *)
Definition generic_desktop_entry (element : Element) : option (Z * Z) :=
  match CFNumberGetValue (kIOHIDElementCookieKey element),
        CFNumberGetValue (kIOHIDElementUsageKey element),
        CFNumberGetValue (kIOHIDElementUsagePageKey element) with
  | Some number, Some usage, Some usagePage =>
      if usagePage =? kHIDPage_GenericDesktop
      then Some (usage, UInt32 number) else None
  | _, _, _ => None
  end.

(* The cookies of the elements of Generic Desktop usage [usage], in the
   order of the element list. *)
Fixpoint cookies_with_usage (usage : Z) (elements : list Element) : list Z :=
  match elements with
  | [] => []
  | element :: rest =>
      match generic_desktop_entry element with
      | Some (u, cookie) =>
          if u =? usage then cookie :: cookies_with_usage usage rest
          else cookies_with_usage usage rest
      | None => cookies_with_usage usage rest
      end
  end.

(* An element of usage page Generic Desktop and usage [usage], carrying
   [cookie], occurs in the list. *)
Definition found (usage : Z) (elements : list Element) (cookie : Z) : Prop :=
  exists element number,
    In element elements /\
    CFNumberGetValue (kIOHIDElementUsagePageKey element)
    = Some kHIDPage_GenericDesktop /\
    CFNumberGetValue (kIOHIDElementUsageKey element) = Some usage /\
    CFNumberGetValue (kIOHIDElementCookieKey element) = Some number /\
    cookie = UInt32 number.

(* The value a field or a cached identifier takes when one element has been
   looked at. *)
Definition after_element (usage : Z) (element : Element) (old : Z) : Z :=
  match generic_desktop_entry element with
  | Some (u, cookie) => if u =? usage then cookie else old
  | None => old
  end.

(* The same once the whole list has been looked at. *)
Fixpoint after_elements (usage : Z) (elements : list Element) (old : Z) : Z :=
  match elements with
  | [] => old
  | element :: rest =>
      after_elements usage rest (after_element usage element old)
  end.

(* The record and the cached identifiers a successful scan ends with. *)
Definition resolved_cookies (elements : list Element) : cookie_struct :=
  let final k := last (cookies_with_usage k elements) 0 in
  mkCookies (final kHIDUsage_GD_SystemAppMenu)
            (final kHIDUsage_GD_SystemMenu)
            (final kHIDUsage_GD_SystemMenuRight)
            (final kHIDUsage_GD_SystemMenuLeft)
            (final kHIDUsage_GD_SystemMenuUp)
            (final kHIDUsage_GD_SystemMenuDown).

Definition resolved_globals (elements : list Element) (g : Globals)
  : Globals :=
  mkGlobals
    (last (cookies_with_usage kHIDUsage_GD_SystemMenuRight elements)
          (buttonNextID g))
    (last (cookies_with_usage kHIDUsage_GD_SystemMenuLeft elements)
          (buttonPreviousID g))
    (driveKeynote g).

(* An element list with an application-menu, a right and a left button, a
   right button of another usage page, an element without usage and one
   whose usage page is not a number. *)
Definition sample_elements : list Element :=
  let number n := Some (CFNumber (Some n)) in
  [ mkElement (number 18) (number 0x86) (number 1);
    mkElement (number 21) (number 0x8A) (number 1);
    mkElement (number 22) (number 0x8B) (number 1);
    mkElement (number 99) (number 0x8A) (number 0x0C);
    mkElement (number 23) None (number 1);
    mkElement (number 24) (number 0x8C) (Some CFOther) ].

(* Computations that leave the globals as they found them. *)
Definition preserves {A} (m : M A) : Prop := forall g, globals (m g) = g.

(* Every wake-up finds the queue empty after fewer than [fuel] events. *)
Definition drains_within (fuel : nat) (env : QueueEnv) : Prop :=
  exists n, drained_at env n /\ (n < fuel)%nat.

(* The queue is allocated and the callback gets registered. *)
Definition queue_setup_ok (w : World) : bool :=
  allocQueue_ok w && privateData_malloc_ok w
  && (createAsyncEventSource_result w =? kIOReturnSuccess)
  && (setEventCallout_result w =? kIOReturnSuccess).

(* The device is found, its interface is obtained, the cookies are
   resolved and the device object is released: [setupAndRun] gets as far as
   opening the device. *)
Definition device_ready (w : World) : bool :=
  negb (hidService w =? 0)
  && (getClass_result w =? kIOReturnSuccess)
  && (createPlugIn_result w =? kIOReturnSuccess)
  && (queryInterface_result w =? S_OK)
  && match deviceInterface w with DeviceHandle => true | _ => false end
  && cookies_malloc_ok w
  && (copyMatchingElements_result w =? kIOReturnSuccess)
  && (objectRelease_result w =? kIOReturnSuccess).

(* The calls of [setupAndRun] up to the release of the device object. *)
Definition setup_calls : list Action :=
  [Call (IOServiceNameMatching "AppleIRController");
   Call IOServiceGetMatchingService; Call IOObjectGetClass;
   Call IOCreatePlugInInterfaceForService; Call QueryInterface;
   Call PlugInRelease; Call copyMatchingElements; Call IOObjectRelease].

(* The steps of the system overview, and the call that marks each. *)
Inductive Step :=
| LocateDevice
| ResolveCookies
| OpenDevice
| RegisterCallback
| RunEventLoop
| CloseDevice
| ReleaseDevice.

Definition step_of (c : OSCall) : option Step :=
  match c with
  | IOServiceGetMatchingService => Some LocateDevice
  | copyMatchingElements => Some ResolveCookies
  | deviceOpen => Some OpenDevice
  | setEventCallout => Some RegisterCallback
  | CFRunLoopRun => Some RunEventLoop
  | deviceClose => Some CloseDevice
  | deviceRelease => Some ReleaseDevice
  | _ => None
  end.

Fixpoint steps (t : list Action) : list Step :=
  match t with
  | [] => []
  | Call c :: t' =>
      match step_of c with
      | Some s => s :: steps t'
      | None => steps t'
      end
  | _ :: t' => steps t'
  end.




(* A world in which only the answers given as arguments vary; every other
   call succeeds. *)
Definition sample_world (service createPlugIn query : Z) (queue : bool)
  (ws : list QueueEnv) : World :=
  {| mach_error_string := fun _ => "(os/kern) failure";
     hidService := service;
     getClass_result := 0;
     createPlugIn_result := createPlugIn;
     queryInterface_result := query;
     deviceInterface := DeviceHandle;
     cookies_malloc_ok := true;
     copyMatchingElements_result := 0;
     elements := sample_elements;
     objectRelease_result := 0;
     open_setupAndRun := 0;
     open_doRun := 0;
     allocQueue_ok := queue;
     privateData_malloc_ok := true;
     createAsyncEventSource_result := 0;
     setEventCallout_result := 0;
     wakeups := ws |}.

(* Every framework call succeeds; the run loop wakes the callback once,
   with two events queued. *)
Definition plain_world : World := sample_world 0x1403 0 0 true [two_events].






(* [IOCreatePlugInInterfaceForService] answers kIOReturnError. *)
Definition no_plugin_world : World :=
  sample_world 0x1403 (-536870212) 0 true [].


(** ** Vocabulary of the further properties *)

(* The first option before -1 that is not 'k', if there is one. *)
Definition first_other_option (opts : list Z) : option Z :=
  find (fun c => negb (c =? opt_k)) (options_seen opts).

(* A computation keeps an invariant of the globals and every action of its
   trace satisfies [P], whenever it is entered with the invariant. *)
Definition respects {A} (Inv : Globals -> Prop) (P : Action -> Prop) (m : M A)
  : Prop :=
  forall g, Inv g -> Inv (globals (m g)) /\ Forall P (trace (m g)).

(* The action is a call on the Apple-event manager. *)
Definition is_apple_event (a : Action) : bool :=
  match a with
  | Call (AEBuildAppleEvent _ _ _) => true
  | Call AESend => true
  | Call AEDisposeDesc => true
  | _ => false
  end.

(* Forwarding is off. *)
Definition forwarding_off (g : Globals) : Prop := driveKeynote g = 0.

(* The cookies handed to [addElement], in order. *)
Fixpoint added_elements (t : list Action) : list Z :=
  match t with
  | [] => []
  | Call (queueAddElement cookie) :: t' => cookie :: added_elements t'
  | _ :: t' => added_elements t'
  end.

(* The action is a call of [addElement]. *)
Definition is_add_element (a : Action) : bool :=
  match a with
  | Call (queueAddElement _) => true
  | _ => false
  end.

(* The six fields of the record, in the order of the declaration. *)
Definition cookie_fields (cookies : cookie_struct) : list Z :=
  [gButtonCookie_SystemAppMenu cookies;
   gButtonCookie_SystemMenuSelect cookies;
   gButtonCookie_SystemMenuRight cookies;
   gButtonCookie_SystemMenuLeft cookies;
   gButtonCookie_SystemMenuUp cookies;
   gButtonCookie_SystemMenuDown cookies].

(* The globals after the option loop saw [opts] and returned. *)
Definition globals_after_options (opts : list Z) : Globals :=
  globals (parse_options opts initial_globals).

(* What [usage] prints. *)
Definition usage_output : list Action := trace (usage initial_globals).

(* The computation never calls [exit]. *)
Definition exits {A} (o : Outcome A) : bool :=
  match o with
  | Exit _ => true
  | _ => false
  end.

Definition never_exits {A} (m : M A) : Prop :=
  forall g, exits (outcome (m g)) = false.

(* The slide steps the handling of one event asks for; the answers of the
   Apple-event calls play no part in it. *)
Definition requests_of (g : Globals) (event : IOHIDEventStruct) : list Z :=
  slide_requests (trace (dispatch_event event noErr noErr g)).

(* A computation that does not open the device, and that calls [exit] only
   with status 1 or EX_OSERR and only after writing to standard error. *)
Definition reports_before_exit {A} (m : M A) : Prop :=
  forall g,
    ~ In deviceOpen (calls (trace (m g)))
    /\ forall n, outcome (m g) = Exit n ->
         (n = 1 \/ n = EX_OSERR) /\ written stderr (trace (m g)) <> [].

(* A computation in which a call of [exit] comes with status 1 or EX_OSERR,
   after a message on standard error and before any opening of the
   device. *)
Definition exits_before_open {A} (m : M A) : Prop :=
  forall g n,
    outcome (m g) = Exit n ->
    (n = 1 \/ n = EX_OSERR)
    /\ written stderr (trace (m g)) <> []
    /\ ~ In deviceOpen (calls (trace (m g))).

(* What an invocation of the callback may do: take an event off the queue,
   write, flush standard output, and build, send and dispose of an Apple
   event. *)
Definition callback_action (a : Action) : bool :=
  match a with
  | Call getNextEvent => true
  | Call (AEBuildAppleEvent _ _ _) => true
  | Call AESend => true
  | Call AEDisposeDesc => true
  | Output _ _ => true
  | Flush stdout => true
  | _ => false
  end.

(* The callback could not be registered with the run loop. *)
Definition registration_fails (w : World) : bool :=
  negb ((createAsyncEventSource_result w =? kIOReturnSuccess)
        && (setEventCallout_result w =? kIOReturnSuccess)).

(* A world in which [setEventCallout] fails although events are waiting. *)
Definition no_callout_world : World :=
  {| mach_error_string := fun _ => "(os/kern) failure";
     hidService := 0x1403;
     getClass_result := 0;
     createPlugIn_result := 0;
     queryInterface_result := 0;
     deviceInterface := DeviceHandle;
     cookies_malloc_ok := true;
     copyMatchingElements_result := 0;
     elements := sample_elements;
     objectRelease_result := 0;
     open_setupAndRun := 0;
     open_doRun := 0;
     allocQueue_ok := true;
     privateData_malloc_ok := true;
     createAsyncEventSource_result := 0;
     setEventCallout_result := -536870212;
     wakeups := [two_events] |}.

(* The six usages [getHIDCookies] looks for, in the order of the fields. *)
Definition button_usages : list Z :=
  [kHIDUsage_GD_SystemAppMenu; kHIDUsage_GD_SystemMenu;
   kHIDUsage_GD_SystemMenuRight; kHIDUsage_GD_SystemMenuLeft;
   kHIDUsage_GD_SystemMenuUp; kHIDUsage_GD_SystemMenuDown].

(* An element the loop of [getHIDCookies] passes over: one of its three
   numbers cannot be read, its usage page is not Generic Desktop, or its
   usage is none of the six. *)
Definition passed_over (element : Element) : Prop :=
  CFNumberGetValue (kIOHIDElementCookieKey element) = None
  \/ CFNumberGetValue (kIOHIDElementUsageKey element) = None
  \/ CFNumberGetValue (kIOHIDElementUsagePageKey element) = None
  \/ CFNumberGetValue (kIOHIDElementUsagePageKey element)
     <> Some kHIDPage_GenericDesktop
  \/ (forall usage,
        CFNumberGetValue (kIOHIDElementUsageKey element) = Some usage ->
        ~ In usage button_usages).

(* A value that fits the 32 bits of an element cookie. *)
Definition is_cookie (c : Z) : Prop := 0 <= c < 2 ^ 32.

(* The character occurs in the string. *)
Fixpoint occurs (a : ascii) (s : string) : bool :=
  match s with
  | EmptyString => false
  | String b s' => Ascii.eqb a b || occurs a s'
  end.

(* Reading back what [%x] printed. *)
Definition read_x (s : string) : option Z :=
  option_map (fun d => Z.of_N (N.of_hex_uint d))
             (HexadecimalString.NilZero.uint_of_string s).

(** * Properties *)

(** ** The model on concrete inputs *)

Example event_line_pressed :
  event_line (mkEvent 21 1) = ("0x15 pressed" ++ nl)%string.
Proof. reflexivity. Qed.

Example event_line_depressed :
  event_line (mkEvent 21 0) = ("0x15 depressed" ++ nl)%string.
Proof. reflexivity. Qed.

Example event_line_cookie_zero :
  event_line (mkEvent 0 (-1)) = ("0 pressed" ++ nl)%string.
Proof. reflexivity. Qed.

Example getHIDCookies_sample :
  getHIDCookies true 0 sample_elements DeviceHandle initial_globals
  = mkRun [Call copyMatchingElements] (mkGlobals 21 22 0)
          (Ret (mkCookies 18 0 21 22 0 0)).
Proof. reflexivity. Qed.

Example getHIDCookies_last_match :
  let number n := Some (CFNumber (Some n)) in
  outcome (getHIDCookies true 0
             [mkElement (number 21) (number 0x8A) (number 1);
              mkElement (number 25) (number 0x8A) (number 1)]
             DeviceHandle initial_globals)
  = Ret (mkCookies 0 0 25 0 0 0).
Proof. reflexivity. Qed.

Example QueueCallbackFunction_two_events :
  QueueCallbackFunction 3 two_events resolved_forwarding
  = mkRun [Call getNextEvent;
           Output stdout ("0x15 pressed" ++ nl); Flush stdout;
           Call (AEBuildAppleEvent keynoteEventClass slideForward keynoteID);
           Call AESend; Call AEDisposeDesc; Call AEDisposeDesc;
           Call getNextEvent;
           Output stdout ("0x15 depressed" ++ nl); Flush stdout;
           Call getNextEvent]
          resolved_forwarding (Ret tt).
Proof. reflexivity. Qed.

Example run_main_help :
  outcome (run_main 0 [opt_h] plain_world) = Exit 0.
Proof. reflexivity. Qed.

Example run_main_unknown_option :
  outcome (run_main 0 [63] plain_world) = Exit 1.
Proof. reflexivity. Qed.

(** ** The monad *)

Lemma bind_Ret {A B} (m : M A) (k : A -> M B) (g : Globals) (a : A) :
  outcome (m g) = Ret a ->
  bind m k g =
  mkRun (trace (m g) ++ trace (k a (globals (m g))))
        (globals (k a (globals (m g))))
        (outcome (k a (globals (m g)))).
Proof. intros H. unfold bind. rewrite H. reflexivity. Qed.

Lemma bind_ret_l {A B} (a : A) (k : A -> M B) (g : Globals) :
  bind (ret a) k g = k a g.
Proof. unfold bind, ret. cbn. destruct (k a g). reflexivity. Qed.

Lemma bind_emit {B} (a : Action) (k : unit -> M B) (g : Globals) :
  bind (emit a) k g =
  mkRun (a :: trace (k tt g)) (globals (k tt g)) (outcome (k tt g)).
Proof. reflexivity. Qed.

Lemma pure_run_bind {A B} (m : M A) (k : A -> M B) g a :
  pure_run m g a ->
  bind m k g =
  mkRun (trace (m g) ++ trace (k a g)) (globals (k a g)) (outcome (k a g)).
Proof.
  intros H. rewrite (bind_Ret m k g a).
  - rewrite H. reflexivity.
  - rewrite H. reflexivity.
Qed.

Lemma written_app f t1 t2 : written f (t1 ++ t2) = written f t1 ++ written f t2.
Proof.
  induction t1 as [|a t1 IH]; [reflexivity|].
  destruct a as [[] s| |]; destruct f; simpl; rewrite IH; reflexivity.
Qed.

(** ** [KeynoteChangeSlide] *)

Lemma KeynoteChangeSlide_build_failed eventID build send g :
  build <> noErr ->
  KeynoteChangeSlide eventID build send g =
  mkRun [Call (AEBuildAppleEvent keynoteEventClass eventID keynoteID);
         Output stderr
           ("Failed to build Apple event (error " ++ fmt_d build ++ ")." ++ nl)]
        g (Ret build).
Proof.
  intros H. unfold KeynoteChangeSlide, call.
  apply Z.eqb_neq in H. rewrite bind_emit. rewrite H. reflexivity.
Qed.

Lemma KeynoteChangeSlide_built eventID send g :
  KeynoteChangeSlide eventID noErr send g =
  mkRun ([Call (AEBuildAppleEvent keynoteEventClass eventID keynoteID);
          Call AESend]
         ++ (if send =? noErr then []
             else [Output stderr
                     ("Failed to send Apple event (error " ++ fmt_d send
                      ++ ")." ++ nl)])
         ++ [Call AEDisposeDesc; Call AEDisposeDesc])
        g (Ret send).
Proof.
  unfold KeynoteChangeSlide, call. rewrite bind_emit. simpl.
  destruct (send =? noErr); reflexivity.
Qed.

Lemma KeynoteChangeSlide_pure eventID build send g :
  pure_run (KeynoteChangeSlide eventID build send) g
           (if build =? noErr then send else build).
Proof.
  unfold pure_run. destruct (Z.eqb_spec build noErr) as [->|Hb].
  - rewrite KeynoteChangeSlide_built. reflexivity.
  - rewrite KeynoteChangeSlide_build_failed by assumption. reflexivity.
Qed.

Lemma KeynoteChangeSlide_requests eventID build send g :
  slide_requests (trace (KeynoteChangeSlide eventID build send g)) = [eventID].
Proof.
  destruct (Z.eqb_spec build noErr) as [->|Hb].
  - rewrite KeynoteChangeSlide_built. simpl.
    destruct (send =? noErr); reflexivity.
  - rewrite KeynoteChangeSlide_build_failed by assumption. reflexivity.
Qed.

(** ** The handling of one event *)

Lemma dispatch_event_trace event build send g :
  trace (dispatch_event event build send g) =
  Output stdout (event_line event) :: Flush stdout ::
  (if negb (value event =? 0) && negb (driveKeynote g =? 0) then
     if elementCookie event =? buttonNextID g then
       trace (KeynoteChangeSlide slideForward build send g)
     else if elementCookie event =? buttonPreviousID g then
       trace (KeynoteChangeSlide slideBackward build send g)
     else []
   else []).
Proof.
  unfold dispatch_event, fprintf, fflush. rewrite !bind_emit. simpl.
  destruct (negb (value event =? 0) && negb (driveKeynote g =? 0));
    [|reflexivity].
  destruct (elementCookie event =? buttonNextID g).
  - rewrite (pure_run_bind _ _ _ _ (KeynoteChangeSlide_pure _ _ _ _)).
    simpl. rewrite app_nil_r. reflexivity.
  - destruct (elementCookie event =? buttonPreviousID g); [|reflexivity].
    rewrite (pure_run_bind _ _ _ _ (KeynoteChangeSlide_pure _ _ _ _)).
    simpl. rewrite app_nil_r. reflexivity.
Qed.

Lemma dispatch_event_pure event build send g :
  pure_run (dispatch_event event build send) g tt.
Proof.
  unfold pure_run, dispatch_event, fprintf, fflush. rewrite !bind_emit. simpl.
  destruct (negb (value event =? 0) && negb (driveKeynote g =? 0));
    [|reflexivity].
  destruct (elementCookie event =? buttonNextID g).
  - rewrite (pure_run_bind _ _ _ _ (KeynoteChangeSlide_pure _ _ _ _)).
    reflexivity.
  - destruct (elementCookie event =? buttonPreviousID g); [|reflexivity].
    rewrite (pure_run_bind _ _ _ _ (KeynoteChangeSlide_pure _ _ _ _)).
    reflexivity.
Qed.

Lemma dispatch_event_requests event build send g :
  slide_requests (trace (dispatch_event event build send g)) =
  if negb (value event =? 0) && negb (driveKeynote g =? 0) then
    if elementCookie event =? buttonNextID g then [slideForward]
    else if elementCookie event =? buttonPreviousID g then [slideBackward]
    else []
  else [].
Proof.
  rewrite dispatch_event_trace. simpl.
  destruct (negb (value event =? 0) && negb (driveKeynote g =? 0));
    [|reflexivity].
  destruct (elementCookie event =? buttonNextID g).
  - apply KeynoteChangeSlide_requests.
  - destruct (elementCookie event =? buttonPreviousID g); [|reflexivity].
    apply KeynoteChangeSlide_requests.
Qed.

Lemma dispatch_event_stdout event build send g :
  written stdout (trace (dispatch_event event build send g)) =
  [event_line event].
Proof.
  rewrite dispatch_event_trace. simpl. f_equal.
  destruct (negb (value event =? 0) && negb (driveKeynote g =? 0));
    [|reflexivity].
  assert (K : forall id, written stdout
                (trace (KeynoteChangeSlide id build send g)) = []).
  { intros id. destruct (Z.eqb_spec build noErr) as [->|Hb].
    - rewrite KeynoteChangeSlide_built. simpl.
      destruct (send =? noErr); reflexivity.
    - rewrite KeynoteChangeSlide_build_failed by assumption. reflexivity. }
  destruct (elementCookie event =? buttonNextID g); [apply K|].
  destruct (elementCookie event =? buttonPreviousID g); [apply K|reflexivity].
Qed.

(** ** The callback loop *)

Lemma callback_loop_S fuel env i g :
  callback_loop (S fuel) env i g =
  if fst (nextEvent env i) =? 0 then
    let r := callback_loop fuel env (S i) g in
    mkRun (Call getNextEvent ::
           trace (dispatch_event (snd (nextEvent env i))
                    (aeBuild env i) (aeSend env i) g) ++ trace r)
          (globals r) (outcome r)
  else mkRun [Call getNextEvent] g (Ret tt).
Proof.
  simpl. unfold call. rewrite bind_emit.
  destruct (nextEvent env i) as [r event]. simpl.
  destruct (r =? 0); [|reflexivity].
  rewrite (pure_run_bind _ _ _ _ (dispatch_event_pure _ _ _ _)).
  reflexivity.
Qed.

Lemma callback_loop_globals fuel env : forall i g,
  globals (callback_loop fuel env i g) = g.
Proof.
  induction fuel as [|fuel IH]; intros i g; [reflexivity|].
  rewrite callback_loop_S.
  destruct (fst (nextEvent env i) =? 0); simpl; [apply IH|reflexivity].
Qed.

Lemma callback_loop_stdout fuel env : forall i g,
  written stdout (trace (callback_loop fuel env i g)) =
  map event_line (dequeued fuel env i).
Proof.
  induction fuel as [|fuel IH]; intros i g; [reflexivity|].
  rewrite callback_loop_S. cbn [dequeued].
  destruct (fst (nextEvent env i) =? 0); [|reflexivity].
  cbn [trace written]. rewrite written_app, dispatch_event_stdout, IH.
  reflexivity.
Qed.

Lemma UInt32_idem x : UInt32 (UInt32 x) = UInt32 x.
Proof. unfold UInt32. apply Z.mod_mod. lia. Qed.

Lemma callback_loop_drains env g : forall n fuel i,
  (forall j, (i <= j < i + n)%nat -> fst (nextEvent env j) = 0) ->
  fst (nextEvent env (i + n)) <> 0 ->
  (n < fuel)%nat ->
  callback_loop fuel env i g =
  mkRun (handled env g i n ++ [Call getNextEvent]) g (Ret tt).
Proof.
  induction n as [|n IH]; intros fuel i Hz Hnz Hfuel.
  - destruct fuel as [|fuel]; [lia|]. rewrite callback_loop_S.
    rewrite Nat.add_0_r in Hnz. apply Z.eqb_neq in Hnz. rewrite Hnz.
    reflexivity.
  - destruct fuel as [|fuel]; [lia|]. rewrite callback_loop_S.
    rewrite (proj2 (Z.eqb_eq _ _) (Hz i ltac:(lia))).
    rewrite (IH fuel (S i)).
    + cbn [handled trace globals outcome app].
      rewrite <- app_assoc. reflexivity.
    + intros j Hj. apply Hz. lia.
    + replace (S i + n)%nat with (i + S n)%nat by lia. exact Hnz.
    + lia.
Qed.



(** ** Events: printing, forwarding, draining *)

Lemma read_x_fmt_x x : read_x (fmt_x x) = Some (UInt32 x).
Proof.
  unfold read_x, fmt_x.
  assert (H : forall d,
             option_map (fun d => Z.of_N (N.of_hex_uint d))
               (HexadecimalString.NilZero.uint_of_string
                  (HexadecimalString.NilZero.string_of_uint d))
             = Some (Z.of_N (N.of_hex_uint d))).
  { intros d. destruct d;
      try (rewrite HexadecimalString.NilZero.usu by discriminate;
           reflexivity).
    reflexivity. }
  rewrite H, HexadecimalN.Unsigned.of_to, Z2N.id; [reflexivity|].
  unfold UInt32. apply Z.mod_pos_bound. lia.
Qed.

(** C1: every event the queue callback takes off the queue gives exactly one
    write to standard output, in the order of the events; the line is the
    element cookie, cast to UInt32 and printed with [%#lx], a space, a
    label and a newline, where the label is "depressed" exactly when the
    value of the event is 0 and "pressed" exactly when it is not.  What
    is printed for the cookie is 0 when its low 32 bits are zero, and
    otherwise 0x followed by digits that read back, as a hexadecimal number,
    to the cookie modulo 2^32. *)
Theorem C1_one_line_per_event (fuel : nat) (env : QueueEnv) (g : Globals) :
  written stdout (trace (QueueCallbackFunction fuel env g)) =
  map event_line (dequeued fuel env 0)
  /\ forall event, exists label,
       event_line event =
       (fmt_alt_lx (elementCookie event) ++ " " ++ label ++ nl)%string
       /\ (label = "depressed"%string <-> value event = 0)
       /\ (label = "pressed"%string <-> value event <> 0)
       /\ (UInt32 (elementCookie event) = 0 ->
           fmt_alt_lx (elementCookie event) = "0"%string)
       /\ (UInt32 (elementCookie event) <> 0 ->
           exists digits,
             fmt_alt_lx (elementCookie event) = ("0x" ++ digits)%string
             /\ read_x digits = Some (UInt32 (elementCookie event))).
Proof.
  split; [apply callback_loop_stdout|].
  intros event.
  exists (if value event =? 0 then "depressed"%string else "pressed"%string).
  split; [|split; [|split; [|split]]].
  - unfold event_line, fmt_alt_lx, fmt_x. rewrite !UInt32_idem. reflexivity.
  - destruct (Z.eqb_spec (value event) 0) as [E|E];
      split; intros; try assumption; try reflexivity;
      try discriminate; contradiction.
  - destruct (Z.eqb_spec (value event) 0) as [E|E];
      split; intros; try assumption; try reflexivity;
      try discriminate; contradiction.
  - intros H. unfold fmt_alt_lx. rewrite H. reflexivity.
  - intros H. unfold fmt_alt_lx. apply Z.eqb_neq in H. rewrite H.
    exists (fmt_x (elementCookie event)).
    split; [reflexivity|apply read_x_fmt_x].
Qed.

Lemma C1_one_line_per_event_witness :
  exists digits,
    fmt_alt_lx 21 = ("0x" ++ digits)%string /\ read_x digits = Some 21.
Proof.
  destruct (proj2 (C1_one_line_per_event 0 two_events initial_globals)
              (mkEvent 21 1)) as (label & _ & _ & _ & _ & H).
  apply H. discriminate.
Defined.

Lemma parse_options_cons c rest g :
  parse_options (c :: rest) g =
  if c =? -1 then mkRun [] g (Ret tt)
  else if c =? opt_h then mkRun (trace (usage g)) g (Exit 0)
  else if c =? opt_k then
    let r := parse_options rest
               (mkGlobals (buttonNextID g) (buttonPreviousID g) 1) in
    mkRun (trace r) (globals r) (outcome r)
  else mkRun (trace (usage g)) g (Exit 1).
Proof.
  cbn [parse_options].
  destruct (c =? -1); [reflexivity|].
  destruct (c =? opt_h); [reflexivity|].
  destruct (c =? opt_k); reflexivity.
Qed.

Lemma parse_options_button_ids opts : forall g,
  buttonNextID (globals (parse_options opts g)) = buttonNextID g /\
  buttonPreviousID (globals (parse_options opts g)) = buttonPreviousID g.
Proof.
  induction opts as [|c rest IH]; intros g; [split; reflexivity|].
  rewrite parse_options_cons.
  destruct (c =? -1); [split; reflexivity|].
  destruct (c =? opt_h); [split; reflexivity|].
  destruct (c =? opt_k); [|split; reflexivity].
  cbn [globals].
  destruct (IH (mkGlobals (buttonNextID g) (buttonPreviousID g) 1)) as [H1 H2].
  split; assumption.
Qed.

Lemma parse_options_driveKeynote opts : forall g,
  outcome (parse_options opts g) = Ret tt ->
  driveKeynote (globals (parse_options opts g)) =
  if existsb (Z.eqb opt_k) (options_seen opts) then 1 else driveKeynote g.
Proof.
  induction opts as [|c rest IH]; intros g; [reflexivity|].
  rewrite parse_options_cons. cbn [options_seen].
  destruct (c =? -1) eqn:E1; [reflexivity|].
  destruct (c =? opt_h) eqn:Eh; [discriminate|].
  destruct (c =? opt_k) eqn:Ek; [|discriminate].
  cbn [globals outcome]. intros H.
  cbn [existsb]. rewrite Z.eqb_sym, Ek. cbn [orb].
  rewrite IH by exact H. cbn [driveKeynote].
  destruct (existsb (Z.eqb opt_k) (options_seen rest)); reflexivity.
Qed.

(** C2, as stated, fails: with forwarding on and both cached identifiers
    still zero, a press with cookie zero matches the previous-button
    identifier, yet the step requested is the forward one. *)
Lemma C2_counterexample :
  ~ forwarding_as_specified unresolved_forwarding press_cookie_zero 0 0.
Proof.
  intros (_ & _ & H).
  assert (E : slide_requests
                (trace (dispatch_event press_cookie_zero 0 0
                          unresolved_forwarding)) = [slideForward])
    by reflexivity.
  rewrite E in H. specialize (H ltac:(discriminate) eq_refl). discriminate.
Qed.

(** C2, amended: handling an event requests a slide step if and only if
    forwarding is on ([driveKeynote] nonzero, which after the option loop
    of [main] means that [getopt_long] returned 'k'), the value of the event
    is nonzero, and its cookie equals [buttonNextID] or [buttonPreviousID];
    a cookie equal to [buttonNextID] requests the forward step, and a cookie
    equal to [buttonPreviousID] but not to [buttonNextID] requests the
    backward step. *)
Theorem C2_forwarding (g : Globals) (event : IOHIDEventStruct)
  (build send : Z) (opts : list Z) :
  let requests := slide_requests (trace (dispatch_event event build send g)) in
  (requests <> [] <->
   driveKeynote g <> 0 /\ value event <> 0 /\
   (elementCookie event = buttonNextID g \/
    elementCookie event = buttonPreviousID g))
  /\ (driveKeynote g <> 0 -> value event <> 0 ->
      elementCookie event = buttonNextID g -> requests = [slideForward])
  /\ (driveKeynote g <> 0 -> value event <> 0 ->
      elementCookie event = buttonPreviousID g ->
      elementCookie event <> buttonNextID g -> requests = [slideBackward])
  /\ (outcome (parse_options opts initial_globals) = Ret tt ->
      (driveKeynote (globals (parse_options opts initial_globals)) <> 0 <->
       In opt_k (options_seen opts))).
Proof.
  cbv zeta. rewrite dispatch_event_requests.
  destruct (Z.eqb_spec (value event) 0) as [Ev|Ev];
    destruct (Z.eqb_spec (driveKeynote g) 0) as [Ed|Ed];
    destruct (Z.eqb_spec (elementCookie event) (buttonNextID g)) as [En|En];
    destruct (Z.eqb_spec (elementCookie event) (buttonPreviousID g))
      as [Ep|Ep];
    cbn [negb andb];
    (split; [split; [intros H; try (exfalso; apply H; reflexivity);
                     repeat split; auto
                    |intros (H1 & H2 & [H3|H3]);
                     try contradiction; discriminate]|]);
    (split; [intros; try contradiction; reflexivity|]);
    (split; [intros; try contradiction; reflexivity|]);
    intros Hp; rewrite (parse_options_driveKeynote opts _ Hp);
    (destruct (existsb (Z.eqb opt_k) (options_seen opts)) eqn:Ex;
     [apply existsb_exists in Ex; destruct Ex as (x & Hx & Hk);
      apply Z.eqb_eq in Hk; subst x; split; [intros _; exact Hx|discriminate]
     |split; [intros H; exfalso; apply H; reflexivity
             |intros Hin; exfalso;
              assert (Ex' : existsb (Z.eqb opt_k) (options_seen opts) = true)
                by (apply existsb_exists; exists opt_k; split;
                    [exact Hin|apply Z.eqb_refl]);
              congruence]]).
Qed.

Lemma C2_forwarding_witness :
  slide_requests (trace (dispatch_event press_previous 0 0 resolved_forwarding))
  = [slideBackward]
  /\ In opt_k (options_seen [opt_k]).
Proof.
  pose proof (C2_forwarding resolved_forwarding press_previous 0 0 [opt_k])
    as (_ & _ & Hb & Hk).
  split.
  - apply Hb; [discriminate|discriminate|reflexivity|discriminate].
  - apply Hk; [reflexivity|discriminate].
Defined.

(** C9: an event with a nonzero value whose cookie equals both
    [buttonNextID] and [buttonPreviousID] never requests the backward step;
    with forwarding on it requests the forward step and nothing else. *)
Theorem C9_forward_takes_precedence (g : Globals) (event : IOHIDEventStruct)
  (build send : Z) :
  value event <> 0 ->
  elementCookie event = buttonNextID g ->
  elementCookie event = buttonPreviousID g ->
  let requests := slide_requests (trace (dispatch_event event build send g)) in
  ~ In slideBackward requests /\
  (driveKeynote g <> 0 -> requests = [slideForward]).
Proof.
  intros Hv Hn Hp. cbv zeta. rewrite dispatch_event_requests.
  apply Z.eqb_neq in Hv. apply Z.eqb_eq in Hn. rewrite Hv, Hn. cbn [negb andb].
  destruct (Z.eqb_spec (driveKeynote g) 0) as [Ed|Ed]; cbn [negb].
  - split; [intros []|intros H; contradiction].
  - split; [|reflexivity].
    intros [H|[]]. discriminate.
Qed.

Lemma C9_forward_takes_precedence_witness :
  slide_requests
    (trace (dispatch_event press_cookie_zero 0 0 unresolved_forwarding))
  = [slideForward].
Proof.
  apply (C9_forward_takes_precedence unresolved_forwarding press_cookie_zero
           0 0); [discriminate|reflexivity|reflexivity|discriminate].
Defined.

(** C10: when [AEBuildAppleEvent] answers a nonzero status,
    [KeynoteChangeSlide] writes the failure to standard error and returns
    that status, and [AESend] is not called; and whatever the two calls
    answer, [KeynoteChangeSlide] and the handling of the event return to
    their caller: neither ends the process. *)
Theorem C10_build_failure_is_returned (eventID build send : Z) (g : Globals) :
  build <> noErr ->
  let r := KeynoteChangeSlide eventID build send g in
  outcome r = Ret build
  /\ written stderr (trace r) =
     [("Failed to build Apple event (error " ++ fmt_d build ++ ")."
       ++ nl)%string]
  /\ ~ In AESend (calls (trace r))
  /\ (forall b s, exists err,
        outcome (KeynoteChangeSlide eventID b s g) = Ret err)
  /\ (forall event b s, outcome (dispatch_event event b s g) = Ret tt).
Proof.
  intros Hb. cbv zeta.
  rewrite KeynoteChangeSlide_build_failed by assumption.
  split; [reflexivity|]. split; [reflexivity|].
  split; [simpl; intuition discriminate|]. split.
  - intros b s. exists (if b =? noErr then s else b).
    rewrite (KeynoteChangeSlide_pure eventID b s g). reflexivity.
  - intros event b s. rewrite (dispatch_event_pure event b s g). reflexivity.
Qed.

Lemma C10_build_failure_is_returned_witness :
  outcome (KeynoteChangeSlide slideForward (-1700) 0 initial_globals)
  = Ret (-1700).
Proof.
  apply (C10_build_failure_is_returned slideForward (-1700) 0 initial_globals).
  discriminate.
Defined.


Lemma two_events_drained : drained_at two_events 2.
Proof.
  split; [|discriminate].
  intros i Hi. destruct i as [|[|i]]; [reflexivity|reflexivity|lia].
Qed.


(** ** Cookie resolution *)

Lemma record_cookie_run usage cookie cookies g :
  let pick k old := if usage =? k then cookie else old in
  record_cookie usage cookie cookies g =
  mkRun []
    (mkGlobals (pick kHIDUsage_GD_SystemMenuRight (buttonNextID g))
               (pick kHIDUsage_GD_SystemMenuLeft (buttonPreviousID g))
               (driveKeynote g))
    (Ret (mkCookies
            (pick kHIDUsage_GD_SystemAppMenu
                  (gButtonCookie_SystemAppMenu cookies))
            (pick kHIDUsage_GD_SystemMenu
                  (gButtonCookie_SystemMenuSelect cookies))
            (pick kHIDUsage_GD_SystemMenuRight
                  (gButtonCookie_SystemMenuRight cookies))
            (pick kHIDUsage_GD_SystemMenuLeft
                  (gButtonCookie_SystemMenuLeft cookies))
            (pick kHIDUsage_GD_SystemMenuUp
                  (gButtonCookie_SystemMenuUp cookies))
            (pick kHIDUsage_GD_SystemMenuDown
                  (gButtonCookie_SystemMenuDown cookies)))).
Proof.
  cbv zeta. destruct cookies as [a b c d e f], g as [nx pv dk].
  unfold record_cookie.
  cbn [gButtonCookie_SystemAppMenu gButtonCookie_SystemMenuSelect
       gButtonCookie_SystemMenuRight gButtonCookie_SystemMenuLeft
       gButtonCookie_SystemMenuUp gButtonCookie_SystemMenuDown
       buttonNextID buttonPreviousID driveKeynote].
  destruct (Z.eqb_spec usage kHIDUsage_GD_SystemAppMenu) as [->|E1];
    [reflexivity|].
  destruct (Z.eqb_spec usage kHIDUsage_GD_SystemMenu) as [->|E2];
    [reflexivity|].
  destruct (Z.eqb_spec usage kHIDUsage_GD_SystemMenuRight) as [->|E3];
    [reflexivity|].
  destruct (Z.eqb_spec usage kHIDUsage_GD_SystemMenuLeft) as [->|E4];
    [reflexivity|].
  destruct (Z.eqb_spec usage kHIDUsage_GD_SystemMenuUp) as [->|E5];
    [reflexivity|].
  destruct (Z.eqb_spec usage kHIDUsage_GD_SystemMenuDown) as [->|E6];
    reflexivity.
Qed.

Lemma scan_element_run element cookies g :
  let next k old := after_element k element old in
  scan_element element cookies g =
  mkRun []
    (mkGlobals (next kHIDUsage_GD_SystemMenuRight (buttonNextID g))
               (next kHIDUsage_GD_SystemMenuLeft (buttonPreviousID g))
               (driveKeynote g))
    (Ret (mkCookies
            (next kHIDUsage_GD_SystemAppMenu
                  (gButtonCookie_SystemAppMenu cookies))
            (next kHIDUsage_GD_SystemMenu
                  (gButtonCookie_SystemMenuSelect cookies))
            (next kHIDUsage_GD_SystemMenuRight
                  (gButtonCookie_SystemMenuRight cookies))
            (next kHIDUsage_GD_SystemMenuLeft
                  (gButtonCookie_SystemMenuLeft cookies))
            (next kHIDUsage_GD_SystemMenuUp
                  (gButtonCookie_SystemMenuUp cookies))
            (next kHIDUsage_GD_SystemMenuDown
                  (gButtonCookie_SystemMenuDown cookies)))).
Proof.
  cbv zeta. unfold scan_element, after_element, generic_desktop_entry.
  destruct (CFNumberGetValue (kIOHIDElementCookieKey element)) as [number|];
    [|destruct cookies, g; reflexivity].
  destruct (CFNumberGetValue (kIOHIDElementUsageKey element)) as [usage|];
    [|destruct cookies, g; reflexivity].
  destruct (CFNumberGetValue (kIOHIDElementUsagePageKey element))
    as [usagePage|]; [|destruct cookies, g; reflexivity].
  destruct (usagePage =? kHIDPage_GenericDesktop);
    [|destruct cookies, g; reflexivity].
  apply record_cookie_run.
Qed.

Lemma scan_elements_run elements : forall cookies g,
  let final k old := after_elements k elements old in
  scan_elements elements cookies g =
  mkRun []
    (mkGlobals (final kHIDUsage_GD_SystemMenuRight (buttonNextID g))
               (final kHIDUsage_GD_SystemMenuLeft (buttonPreviousID g))
               (driveKeynote g))
    (Ret (mkCookies
            (final kHIDUsage_GD_SystemAppMenu
                   (gButtonCookie_SystemAppMenu cookies))
            (final kHIDUsage_GD_SystemMenu
                   (gButtonCookie_SystemMenuSelect cookies))
            (final kHIDUsage_GD_SystemMenuRight
                   (gButtonCookie_SystemMenuRight cookies))
            (final kHIDUsage_GD_SystemMenuLeft
                   (gButtonCookie_SystemMenuLeft cookies))
            (final kHIDUsage_GD_SystemMenuUp
                   (gButtonCookie_SystemMenuUp cookies))
            (final kHIDUsage_GD_SystemMenuDown
                   (gButtonCookie_SystemMenuDown cookies)))).
Proof.
  cbv zeta. induction elements as [|element rest IH]; intros cookies g.
  - destruct cookies, g. reflexivity.
  - cbn [scan_elements after_elements]. unfold bind.
    rewrite scan_element_run. cbn [outcome globals trace app].
    rewrite IH. reflexivity.
Qed.

Lemma last_cons {A} (a : A) (l : list A) (d : A) : last (a :: l) d = last l a.
Proof.
  revert a d. induction l as [|b l IH]; intros a d; [reflexivity|].
  change (last (a :: b :: l) d) with (last (b :: l) d).
  rewrite !IH. reflexivity.
Qed.

Lemma after_elements_last usage elements : forall old,
  after_elements usage elements old
  = last (cookies_with_usage usage elements) old.
Proof.
  induction elements as [|element rest IH]; intros old; [reflexivity|].
  cbn [after_elements cookies_with_usage]. rewrite IH. unfold after_element.
  destruct (generic_desktop_entry element) as [[u cookie]|]; [|reflexivity].
  destruct (u =? usage); [|reflexivity].
  rewrite last_cons. reflexivity.
Qed.

Lemma cookies_with_usage_found usage elements cookie :
  In cookie (cookies_with_usage usage elements) -> found usage elements cookie.
Proof.
  induction elements as [|element rest IH]; [intros []|].
  cbn [cookies_with_usage].
  assert (K : found usage rest cookie -> found usage (element :: rest) cookie).
  { intros (e & n & Hin & H). exists e, n. split; [right; exact Hin|exact H]. }
  destruct (generic_desktop_entry element) as [[u c]|] eqn:E; [|auto].
  destruct (Z.eqb_spec u usage) as [->|Hu]; [|auto].
  intros [<-|Hin]; [|auto].
  unfold generic_desktop_entry in E.
  destruct (CFNumberGetValue (kIOHIDElementCookieKey element))
    as [number|] eqn:Ec; [|discriminate].
  destruct (CFNumberGetValue (kIOHIDElementUsageKey element))
    as [u'|] eqn:Eu; [|discriminate].
  destruct (CFNumberGetValue (kIOHIDElementUsagePageKey element))
    as [page|] eqn:Ep; [|discriminate].
  destruct (Z.eqb_spec page kHIDPage_GenericDesktop) as [Hp|]; [|discriminate].
  injection E as Hu Hc. subst.
  exists element, number. repeat split; try assumption; try reflexivity.
  left; reflexivity.
Qed.

Lemma last_nonzero_found usage elements :
  last (cookies_with_usage usage elements) 0 <> 0 ->
  found usage elements (last (cookies_with_usage usage elements) 0).
Proof.
  intros H. apply cookies_with_usage_found.
  destruct (cookies_with_usage usage elements) as [|c l] eqn:E.
  - contradiction H. reflexivity.
  - destruct (exists_last (l:=c :: l) ltac:(discriminate)) as (l' & a & ->).
    rewrite last_last. apply in_or_app. right. left. reflexivity.
Qed.

Lemma getHIDCookies_run malloc_ok result elements handle g :
  getHIDCookies malloc_ok result elements handle g =
  if negb malloc_ok then
    mkRun [Output stderr ("Failed to allocate cookie memory." ++ nl)] g (Exit 1)
  else
    match handle with
    | DeviceHandle =>
        if result =? kIOReturnSuccess then
          mkRun [Call copyMatchingElements] (resolved_globals elements g)
                (Ret (resolved_cookies elements))
        else
          mkRun [Call copyMatchingElements;
                 Output stderr ("Failed to copy cookies." ++ nl)] g (Exit 1)
    | _ => mkRun [] g (Ret zero_cookies)
    end.
Proof.
  unfold getHIDCookies. destruct malloc_ok; [|reflexivity]. cbn [negb].
  destruct handle; [reflexivity|reflexivity|].
  unfold call. rewrite bind_emit.
  destruct (result =? kIOReturnSuccess); [|reflexivity]. cbn [negb].
  rewrite scan_elements_run. cbn [trace globals outcome].
  unfold resolved_globals, resolved_cookies. rewrite !after_elements_last.
  reflexivity.
Qed.

(** C5: whenever [getHIDCookies] returns a record, a field of it that is
    not zero is the cookie of an element of the device's element list whose
    usage page is Generic Desktop and whose usage is the one of that field;
    and for a null handle (or a handle on a null interface), once the record
    is allocated, [getHIDCookies] returns at once with all six fields zero. *)
Theorem C5_zero_means_unresolved (malloc_ok : bool) (result : Z)
  (elements : list Element) (handle : Handle) (g : Globals) :
  (malloc_ok = true -> handle <> DeviceHandle ->
   getHIDCookies malloc_ok result elements handle g
   = mkRun [] g (Ret (mkCookies 0 0 0 0 0 0)))
  /\ forall cookies,
       outcome (getHIDCookies malloc_ok result elements handle g)
       = Ret cookies ->
       (gButtonCookie_SystemAppMenu cookies <> 0 ->
        found kHIDUsage_GD_SystemAppMenu elements
              (gButtonCookie_SystemAppMenu cookies))
       /\ (gButtonCookie_SystemMenuSelect cookies <> 0 ->
           found kHIDUsage_GD_SystemMenu elements
                 (gButtonCookie_SystemMenuSelect cookies))
       /\ (gButtonCookie_SystemMenuRight cookies <> 0 ->
           found kHIDUsage_GD_SystemMenuRight elements
                 (gButtonCookie_SystemMenuRight cookies))
       /\ (gButtonCookie_SystemMenuLeft cookies <> 0 ->
           found kHIDUsage_GD_SystemMenuLeft elements
                 (gButtonCookie_SystemMenuLeft cookies))
       /\ (gButtonCookie_SystemMenuUp cookies <> 0 ->
           found kHIDUsage_GD_SystemMenuUp elements
                 (gButtonCookie_SystemMenuUp cookies))
       /\ (gButtonCookie_SystemMenuDown cookies <> 0 ->
           found kHIDUsage_GD_SystemMenuDown elements
                 (gButtonCookie_SystemMenuDown cookies)).
Proof.
  rewrite getHIDCookies_run. split.
  - intros -> Hh. cbn [negb]. destruct handle; [reflexivity|reflexivity|].
    contradiction Hh. reflexivity.
  - intros cookies. destruct malloc_ok; cbn [negb outcome]; [|discriminate].
    assert (Z0 : forall P : Prop, (0 <> 0 -> P))
      by (intros P H; contradiction H; reflexivity).
    destruct handle; cbn [outcome].
    + intros [= <-]. cbn. repeat split; apply Z0.
    + intros [= <-]. cbn. repeat split; apply Z0.
    + destruct (result =? kIOReturnSuccess); cbn [outcome]; [|discriminate].
      intros [= <-]. unfold resolved_cookies.
      cbn [gButtonCookie_SystemAppMenu gButtonCookie_SystemMenuSelect
           gButtonCookie_SystemMenuRight gButtonCookie_SystemMenuLeft
           gButtonCookie_SystemMenuUp gButtonCookie_SystemMenuDown].
      repeat split; apply last_nonzero_found.
Qed.

Lemma C5_zero_means_unresolved_witness :
  getHIDCookies true 0 sample_elements NullHandle initial_globals
  = mkRun [] initial_globals (Ret (mkCookies 0 0 0 0 0 0))
  /\ found kHIDUsage_GD_SystemMenuRight sample_elements 21.
Proof.
  split.
  - apply (proj1 (C5_zero_means_unresolved true 0 sample_elements NullHandle
                    initial_globals)); [reflexivity|discriminate].
  - apply (proj2 (C5_zero_means_unresolved true 0 sample_elements
                    DeviceHandle initial_globals)
             (mkCookies 18 0 21 22 0 0)); [reflexivity|discriminate].
Defined.

(** C6: when [getHIDCookies], entered with the two cached identifiers at
    their initial value zero, returns a record, [buttonNextID] equals its
    SystemMenuRight field and [buttonPreviousID] its SystemMenuLeft field;
    each is the cookie of the last element of the list with usage page
    Generic Desktop and that usage, and zero when there is none or when the
    handle gave no element list. *)
Theorem C6_cached_identifiers (malloc_ok : bool) (result : Z)
  (elements : list Element) (handle : Handle) (g : Globals)
  (cookies : cookie_struct) :
  buttonNextID g = 0 ->
  buttonPreviousID g = 0 ->
  outcome (getHIDCookies malloc_ok result elements handle g) = Ret cookies ->
  let g' := globals (getHIDCookies malloc_ok result elements handle g) in
  buttonNextID g' = gButtonCookie_SystemMenuRight cookies
  /\ buttonPreviousID g' = gButtonCookie_SystemMenuLeft cookies
  /\ gButtonCookie_SystemMenuRight cookies =
     match handle with
     | DeviceHandle =>
         last (cookies_with_usage kHIDUsage_GD_SystemMenuRight elements) 0
     | _ => 0
     end
  /\ gButtonCookie_SystemMenuLeft cookies =
     match handle with
     | DeviceHandle =>
         last (cookies_with_usage kHIDUsage_GD_SystemMenuLeft elements) 0
     | _ => 0
     end.
Proof.
  intros Hn Hp. cbv zeta. rewrite getHIDCookies_run.
  destruct malloc_ok; cbn [negb outcome]; [|discriminate].
  destruct handle; cbn [outcome globals].
  - intros [= <-]. cbn. auto.
  - intros [= <-]. cbn. auto.
  - destruct (result =? kIOReturnSuccess); cbn [outcome globals];
      [|discriminate].
    intros [= <-]. unfold resolved_globals, resolved_cookies.
    rewrite Hn, Hp. cbn. auto.
Qed.

Lemma C6_cached_identifiers_witness :
  buttonNextID
    (globals (getHIDCookies true 0 sample_elements DeviceHandle
                initial_globals)) = 21
  /\ buttonPreviousID
       (globals (getHIDCookies true 0 sample_elements DeviceHandle
                   initial_globals)) = 22.
Proof.
  pose proof (C6_cached_identifiers true 0 sample_elements DeviceHandle
                initial_globals (mkCookies 18 0 21 22 0 0)
                eq_refl eq_refl eq_refl) as (H1 & H2 & _).
  split; [exact H1|exact H2].
Defined.

(** ** The whole run *)

Lemma bind_run_eq {A B} (m : M A) (k : A -> M B) g t g' a :
  m g = mkRun t g' (Ret a) ->
  bind m k g =
  mkRun (t ++ trace (k a g')) (globals (k a g')) (outcome (k a g')).
Proof. intros H. unfold bind. rewrite H. reflexivity. Qed.

Lemma preserves_bind {A B} (m : M A) (k : A -> M B) :
  preserves m -> (forall a, preserves (k a)) -> preserves (bind m k).
Proof.
  intros Hm Hk g. unfold bind.
  destruct (outcome (m g)) eqn:E; cbn [globals]; rewrite ?Hm; auto.
  apply Hk.
Qed.

Lemma preserves_emit a : preserves (emit a).
Proof. intros g. reflexivity. Qed.

Lemma preserves_ret {A} (a : A) : preserves (ret a).
Proof. intros g. reflexivity. Qed.

Lemma preserves_exit {A} n : preserves (@exit A n).
Proof. intros g. reflexivity. Qed.

Lemma preserves_fault {A} : preserves (@fault A).
Proof. intros g. reflexivity. Qed.

Lemma preserves_if {A} (b : bool) (m1 m2 : M A) :
  preserves m1 -> preserves m2 -> preserves (if b then m1 else m2).
Proof. destruct b; auto. Qed.

Ltac preserves_step :=
  first
    [ apply preserves_bind; [|intros ?]
    | apply preserves_if
    | apply preserves_emit
    | apply preserves_ret
    | apply preserves_exit
    | apply preserves_fault ].

Lemma preserves_QueueCallbackFunction fuel env :
  preserves (QueueCallbackFunction fuel env).
Proof. intros g. apply callback_loop_globals. Qed.

Lemma preserves_dispatch_wakeups fuel ws : preserves (dispatch_wakeups fuel ws).
Proof.
  induction ws as [|env rest IH]; cbn [dispatch_wakeups].
  - apply preserves_ret.
  - apply preserves_bind; [apply preserves_QueueCallbackFunction|].
    intros _. exact IH.
Qed.

Lemma preserves_addQueueCallbacks w : preserves (addQueueCallbacks w).
Proof. unfold addQueueCallbacks, call. repeat preserves_step. Qed.

Lemma preserves_processQueue fuel w cookies :
  preserves (processQueue fuel w cookies).
Proof.
  unfold processQueue, runLoopRun, call, fprintf.
  repeat first [ apply preserves_addQueueCallbacks
               | apply preserves_dispatch_wakeups
               | preserves_step ].
Qed.

Lemma preserves_doRun fuel w cookies : preserves (doRun fuel w cookies).
Proof.
  unfold doRun, call.
  repeat first [ apply preserves_processQueue | preserves_step ].
Qed.

Lemma preserves_print_errmsg_if_io_err mes expr msg :
  preserves (print_errmsg_if_io_err mes expr msg).
Proof.
  unfold print_errmsg_if_io_err, fprintf, fflush. repeat preserves_step.
Qed.

Lemma preserves_print_errmsg_if_err expr msg :
  preserves (print_errmsg_if_err expr msg).
Proof.
  unfold print_errmsg_if_err, fprintf, fflush. repeat preserves_step.
Qed.

Lemma preserves_createHIDDeviceInterface w hdi :
  preserves (createHIDDeviceInterface w hdi).
Proof.
  unfold createHIDDeviceInterface, call.
  repeat first [ apply preserves_print_errmsg_if_io_err
               | apply preserves_print_errmsg_if_err
               | preserves_step ].
Qed.

Lemma bind_globals_tail {A B} (m : M A) (k : A -> M B) g :
  (forall a, preserves (k a)) -> globals (bind m k g) = globals (m g).
Proof.
  intros Hk. unfold bind.
  destruct (outcome (m g)); cbn [globals]; auto. apply Hk.
Qed.

Lemma createHIDDeviceInterface_run w hdi g :
  createHIDDeviceInterface w hdi g =
  if negb (getClass_result w =? kIOReturnSuccess) then
    mkRun [Call IOObjectGetClass;
           Output stderr
             ("*** Failed to get class name. - "
              ++ mach_error_string w (getClass_result w) ++ "("
              ++ fmt_x (getClass_result w) ++ ", "
              ++ fmt_d (Z.land (getClass_result w) 0xffffff) ++ ")." ++ nl);
           Flush stderr] g (Exit EX_OSERR)
  else if negb (createPlugIn_result w =? kIOReturnSuccess) then
    mkRun [Call IOObjectGetClass; Call IOCreatePlugInInterfaceForService]
          g (Ret hdi)
  else if negb (queryInterface_result w =? S_OK) then
    mkRun [Call IOObjectGetClass; Call IOCreatePlugInInterfaceForService;
           Call QueryInterface;
           Output stderr
             ("*** Failed to create device interface." ++ nl ++ "." ++ nl);
           Flush stderr] g (Exit EX_OSERR)
  else
    mkRun [Call IOObjectGetClass; Call IOCreatePlugInInterfaceForService;
           Call QueryInterface; Call PlugInRelease]
          g (Ret (deviceInterface w)).
Proof.
  unfold createHIDDeviceInterface, print_errmsg_if_io_err, print_errmsg_if_err,
    call, fprintf, fflush.
  rewrite bind_emit.
  destruct (getClass_result w =? kIOReturnSuccess); cbn [negb]; [|reflexivity].
  unfold bind at 1. cbn [ret outcome globals trace app]. rewrite bind_emit.
  destruct (createPlugIn_result w =? kIOReturnSuccess); cbn [negb];
    [|reflexivity].
  rewrite bind_emit.
  destruct (queryInterface_result w =? S_OK); cbn [negb]; reflexivity.
Qed.

Lemma dispatch_wakeups_returns fuel ws g :
  Forall (drains_within fuel) ws ->
  dispatch_wakeups fuel ws g =
  mkRun (trace (dispatch_wakeups fuel ws g)) g (Ret tt).
Proof.
  induction 1 as [|env rest (n & [Hz Hnz] & Hn) _ IH]; [reflexivity|].
  cbn [dispatch_wakeups]. unfold QueueCallbackFunction.
  rewrite (bind_run_eq _ _ g _ g tt
             (callback_loop_drains env g n fuel 0%nat
                ltac:(intros j Hj; apply Hz; lia) Hnz Hn)).
  rewrite IH. reflexivity.
Qed.


Lemma addQueueCallbacks_run w g :
  privateData_malloc_ok w = true ->
  addQueueCallbacks w g =
  if negb (createAsyncEventSource_result w =? kIOReturnSuccess) then
    mkRun [Call createAsyncEventSource] g (Ret false)
  else if negb (setEventCallout_result w =? kIOReturnSuccess) then
    mkRun [Call createAsyncEventSource; Call setEventCallout] g (Ret false)
  else
    mkRun [Call createAsyncEventSource; Call setEventCallout;
           Call CFRunLoopAddSource] g (Ret true).
Proof.
  intros H. unfold addQueueCallbacks, call. rewrite H.
  unfold bind at 1. cbn [ret outcome globals trace app]. rewrite bind_emit.
  destruct (createAsyncEventSource_result w =? kIOReturnSuccess); cbn [negb];
    [|reflexivity].
  rewrite bind_emit.
  destruct (setEventCallout_result w =? kIOReturnSuccess); reflexivity.
Qed.

Lemma processQueue_run fuel w cookies g :
  queue_setup_ok w = true ->
  Forall (drains_within fuel) (wakeups w) ->
  processQueue fuel w cookies g =
  mkRun ([Call allocQueue; Call (queueCreate 0 8);
          Call (queueAddElement (gButtonCookie_SystemAppMenu cookies));
          Call (queueAddElement (gButtonCookie_SystemMenuSelect cookies));
          Call (queueAddElement (gButtonCookie_SystemMenuRight cookies));
          Call (queueAddElement (gButtonCookie_SystemMenuLeft cookies));
          Call (queueAddElement (gButtonCookie_SystemMenuUp cookies));
          Call (queueAddElement (gButtonCookie_SystemMenuDown cookies));
          Call createAsyncEventSource; Call setEventCallout;
          Call CFRunLoopAddSource; Call queueStart; Call CFRunLoopRun]
         ++ trace (dispatch_wakeups fuel (wakeups w) g)
         ++ [Call queueStop; Call queueDispose; Call queueRelease])
        g (Ret tt).
Proof.
  unfold queue_setup_ok. intros H Hw.
  apply andb_prop in H as [H H4]. apply andb_prop in H as [H H3].
  apply andb_prop in H as [H1 H2].
  unfold processQueue, runLoopRun, call. rewrite bind_emit, H1. cbn [negb].
  rewrite !bind_emit.
  rewrite (bind_run_eq _ _ g _ g true
             ltac:(rewrite (addQueueCallbacks_run w g H2), H3, H4;
                   reflexivity)).
  rewrite bind_emit.
  assert (R : runLoopRun fuel w true g =
              mkRun (Call CFRunLoopRun ::
                     trace (dispatch_wakeups fuel (wakeups w) g)) g (Ret tt)).
  { unfold runLoopRun, call. rewrite bind_emit.
    rewrite (dispatch_wakeups_returns fuel _ g Hw). reflexivity. }
  unfold call in R. rewrite (bind_run_eq _ _ g _ g tt R).
  rewrite !bind_emit. reflexivity.
Qed.

Lemma doRun_run fuel w cookies g t :
  processQueue fuel w cookies g = mkRun t g (Ret tt) ->
  doRun fuel w cookies g =
  mkRun (Call deviceOpen :: t
         ++ (if open_doRun w =? KERN_SUCCESS then [Call deviceClose] else [])
         ++ [Call deviceRelease]) g (Ret tt).
Proof.
  intros H. unfold doRun, call. rewrite bind_emit.
  rewrite (bind_run_eq _ _ g _ g tt H).
  destruct (open_doRun w =? KERN_SUCCESS); reflexivity.
Qed.

Lemma setupAndRun_ready fuel w g t :
  device_ready w = true ->
  doRun fuel w (resolved_cookies (elements w))
        (resolved_globals (elements w) g)
  = mkRun t (resolved_globals (elements w) g) (Ret tt) ->
  setupAndRun fuel w g =
  mkRun (setup_calls ++ Call deviceOpen :: t
         ++ (if open_setupAndRun w =? KERN_SUCCESS then [Call deviceClose]
             else [])
         ++ [Call deviceRelease])
        (resolved_globals (elements w) g) (Ret tt).
Proof.
  unfold device_ready. intros H Hrun.
  repeat (apply andb_prop in H as [H ?]).
  apply negb_true_iff in H.
  destruct (deviceInterface w) eqn:Hd; try discriminate.
  unfold setupAndRun, call. rewrite !bind_emit, H.
  set (g' := resolved_globals (elements w) g) in *.
  set (cookies := resolved_cookies (elements w)) in *.
  assert (C : createHIDDeviceInterface w NullHandle g =
              mkRun [Call IOObjectGetClass;
                     Call IOCreatePlugInInterfaceForService;
                     Call QueryInterface; Call PlugInRelease]
                    g (Ret DeviceHandle)).
  { rewrite createHIDDeviceInterface_run.
    repeat match goal with E : (_ =? _) = true |- _ => rewrite E; clear E end.
    rewrite Hd. reflexivity. }
  unfold call in C. rewrite (bind_run_eq _ _ g _ g DeviceHandle C).
  assert (K : getHIDCookies (cookies_malloc_ok w)
                (copyMatchingElements_result w) (elements w) DeviceHandle g
              = mkRun [Call copyMatchingElements] g' (Ret cookies)).
  { rewrite getHIDCookies_run.
    repeat match goal with E : _ = true |- _ => rewrite E; clear E end.
    reflexivity. }
  rewrite (bind_run_eq _ _ g _ g' cookies K).
  rewrite bind_emit. unfold print_errmsg_if_io_err.
  match goal with E : (objectRelease_result w =? _) = true |- _ =>
    rewrite E end.
  cbn [negb]. rewrite bind_ret_l, bind_emit.
  rewrite (bind_run_eq _ _ g' _ g' tt Hrun).
  destruct (open_setupAndRun w =? KERN_SUCCESS); reflexivity.
Qed.

Lemma parse_options_trace opts : forall g,
  outcome (parse_options opts g) = Ret tt -> trace (parse_options opts g) = [].
Proof.
  induction opts as [|c rest IH]; intros g; [reflexivity|].
  rewrite parse_options_cons.
  destruct (c =? -1); [reflexivity|].
  destruct (c =? opt_h); [discriminate|].
  destruct (c =? opt_k); [|discriminate].
  cbn [outcome trace]. apply IH.
Qed.

Lemma main_run fuel opts w g :
  outcome (parse_options opts g) = Ret tt ->
  let r := setupAndRun fuel w (globals (parse_options opts g)) in
  main fuel opts w g =
  mkRun (trace r) (globals r)
        (match outcome r with
         | Ret _ => Ret 0
         | Exit n => Exit n
         | Fault => Fault
         | Diverge => Diverge
         end).
Proof.
  intros H. cbv zeta. unfold main.
  unfold bind at 1. rewrite H, (parse_options_trace opts g H).
  cbn [app]. unfold bind.
  destruct (outcome (setupAndRun fuel w (globals (parse_options opts g))));
    cbn [ret trace globals outcome]; rewrite ?app_nil_r; reflexivity.
Qed.

(** ** Steps of the run *)

Lemma steps_app t1 t2 : steps (t1 ++ t2) = steps t1 ++ steps t2.
Proof.
  induction t1 as [|a t1 IH]; [reflexivity|].
  destruct a as [| |c]; cbn [app steps]; [exact IH|exact IH|].
  destruct (step_of c); rewrite IH; reflexivity.
Qed.

Lemma steps_KeynoteChangeSlide eventID build send g :
  steps (trace (KeynoteChangeSlide eventID build send g)) = [].
Proof.
  destruct (Z.eqb_spec build noErr) as [->|Hb].
  - rewrite KeynoteChangeSlide_built. simpl.
    destruct (send =? noErr); reflexivity.
  - rewrite KeynoteChangeSlide_build_failed by assumption. reflexivity.
Qed.

Lemma steps_dispatch_event event build send g :
  steps (trace (dispatch_event event build send g)) = [].
Proof.
  rewrite dispatch_event_trace. cbn [steps].
  destruct (negb (value event =? 0) && negb (driveKeynote g =? 0));
    [|reflexivity].
  destruct (elementCookie event =? buttonNextID g);
    [apply steps_KeynoteChangeSlide|].
  destruct (elementCookie event =? buttonPreviousID g);
    [apply steps_KeynoteChangeSlide|reflexivity].
Qed.

Lemma steps_callback_loop fuel env : forall i g,
  steps (trace (callback_loop fuel env i g)) = [].
Proof.
  induction fuel as [|fuel IH]; intros i g; [reflexivity|].
  rewrite callback_loop_S.
  destruct (fst (nextEvent env i) =? 0); [|reflexivity].
  cbn [trace steps step_of]. rewrite steps_app, steps_dispatch_event, IH.
  reflexivity.
Qed.



Lemma plain_world_wakeups : Forall (drains_within 3) (wakeups plain_world).
Proof.
  constructor; [|constructor].
  exists 2%nat. split; [exact two_events_drained|lia].
Qed.




Lemma bind_unfold {A B} (m : M A) (k : A -> M B) (g : Globals) :
  bind m k g =
  match outcome (m g) with
  | Ret a =>
      mkRun (trace (m g) ++ trace (k a (globals (m g))))
            (globals (k a (globals (m g))))
            (outcome (k a (globals (m g))))
  | Exit n => mkRun (trace (m g)) (globals (m g)) (Exit n)
  | Fault => mkRun (trace (m g)) (globals (m g)) Fault
  | Diverge => mkRun (trace (m g)) (globals (m g)) Diverge
  end.
Proof. reflexivity. Qed.

(* What [setupAndRun] does once the cookies are resolved preserves the
   globals, whatever the handle. *)
Lemma setupAndRun_globals fuel w g :
  globals (setupAndRun fuel w g) = g
  \/ exists handle,
       globals (setupAndRun fuel w g)
       = globals (getHIDCookies (cookies_malloc_ok w)
                    (copyMatchingElements_result w) (elements w) handle g).
Proof.
  unfold setupAndRun, call. rewrite !bind_emit. cbn [globals].
  destruct (hidService w =? 0); [left; reflexivity|].
  rewrite bind_unfold.
  pose proof (preserves_createHIDDeviceInterface w NullHandle g) as Hc.
  unfold call in Hc.
  destruct (outcome (createHIDDeviceInterface w NullHandle g)) as [h| | |];
    cbn [globals]; try (left; exact Hc).
  rewrite Hc. right. exists h.
  apply bind_globals_tail. intros cookies.
  apply preserves_bind; [apply preserves_emit|intros _].
  apply preserves_bind; [apply preserves_print_errmsg_if_io_err|intros _].
  destruct h.
  - unfold fprintf. repeat preserves_step.
  - apply preserves_fault.
  - apply preserves_bind; [apply preserves_emit|intros _].
    apply preserves_bind; [apply preserves_doRun|intros _].
    repeat preserves_step.
Qed.

Lemma getHIDCookies_button_ids malloc_ok result elements handle g :
  buttonNextID g = 0 ->
  buttonPreviousID g = 0 ->
  let g' := globals (getHIDCookies malloc_ok result elements handle g) in
  (buttonNextID g' = 0 /\ buttonPreviousID g' = 0)
  \/ (buttonNextID g'
      = last (cookies_with_usage kHIDUsage_GD_SystemMenuRight elements) 0
      /\ buttonPreviousID g'
         = last (cookies_with_usage kHIDUsage_GD_SystemMenuLeft elements) 0).
Proof.
  intros Hn Hp. cbv zeta. rewrite getHIDCookies_run.
  destruct malloc_ok; cbn [negb globals]; [|left; auto].
  destruct handle; cbn [globals]; try (left; auto; fail).
  destruct (result =? kIOReturnSuccess); cbn [globals]; [|left; auto].
  right. unfold resolved_globals. rewrite Hn, Hp. split; reflexivity.
Qed.

(** C7: an invocation of the queue callback ends with all three globals as
    it found them, and so do the dispatch of the wake-ups by the run loop,
    [processQueue] and [doRun], that is everything that runs once the
    device is open; the option loop of [main] and [createHIDDeviceInterface]
    leave the two button identifiers alone.  So [setupAndRun] ends with the
    globals either untouched or as [getHIDCookies] left them, and a whole
    run ends with both identifiers at their initial zero or with the values
    the scan of the element list gives. *)
Theorem C7_identifiers_written_by_resolution_only :
  (forall fuel env g, globals (QueueCallbackFunction fuel env g) = g)
  /\ (forall fuel ws g, globals (dispatch_wakeups fuel ws g) = g)
  /\ (forall fuel w cookies g, globals (processQueue fuel w cookies g) = g)
  /\ (forall fuel w cookies g, globals (doRun fuel w cookies g) = g)
  /\ (forall opts g,
        buttonNextID (globals (parse_options opts g)) = buttonNextID g /\
        buttonPreviousID (globals (parse_options opts g)) = buttonPreviousID g)
  /\ (forall w hdi g, globals (createHIDDeviceInterface w hdi g) = g)
  /\ (forall fuel w g,
        globals (setupAndRun fuel w g) = g
        \/ exists handle,
             globals (setupAndRun fuel w g)
             = globals (getHIDCookies (cookies_malloc_ok w)
                          (copyMatchingElements_result w) (elements w)
                          handle g))
  /\ (forall fuel opts w,
        let g := globals (run_main fuel opts w) in
        (buttonNextID g = 0 /\ buttonPreviousID g = 0)
        \/ (buttonNextID g
            = last (cookies_with_usage kHIDUsage_GD_SystemMenuRight
                      (elements w)) 0
            /\ buttonPreviousID g
               = last (cookies_with_usage kHIDUsage_GD_SystemMenuLeft
                         (elements w)) 0)).
Proof.
  split; [exact preserves_QueueCallbackFunction|].
  split; [exact preserves_dispatch_wakeups|].
  split; [exact preserves_processQueue|].
  split; [exact preserves_doRun|].
  split; [intros opts g; apply parse_options_button_ids|].
  split; [exact preserves_createHIDDeviceInterface|].
  split; [exact setupAndRun_globals|].
  intros fuel opts w. cbv zeta. unfold run_main, main.
  destruct (parse_options_button_ids opts initial_globals) as [Hn Hp].
  cbn [initial_globals buttonNextID buttonPreviousID] in Hn, Hp.
  rewrite bind_unfold.
  destruct (outcome (parse_options opts initial_globals)) as [[]| | |];
    cbn [globals]; try (left; split; assumption).
  set (g0 := globals (parse_options opts initial_globals)) in *.
  rewrite bind_globals_tail by (intros a; apply preserves_ret).
  destruct (setupAndRun_globals fuel w g0) as [E|[h E]]; rewrite E.
  - left; split; assumption.
  - apply getHIDCookies_button_ids; assumption.
Qed.

(** ** Failures during setup *)








(** * Further properties *)

(** ** Traces of composed computations *)

Lemma trace_bind {A B} (m : M A) (k : A -> M B) (g : Globals) :
  trace (bind m k g) =
  trace (m g) ++ match outcome (m g) with
                 | Ret a => trace (k a (globals (m g)))
                 | _ => []
                 end.
Proof.
  unfold bind. destruct (outcome (m g)); cbn [trace];
    rewrite ?app_nil_r; reflexivity.
Qed.

Lemma globals_bind {A B} (m : M A) (k : A -> M B) (g : Globals) :
  globals (bind m k g) =
  match outcome (m g) with
  | Ret a => globals (k a (globals (m g)))
  | _ => globals (m g)
  end.
Proof. unfold bind. destruct (outcome (m g)); reflexivity. Qed.

Lemma calls_app t1 t2 : calls (t1 ++ t2) = calls t1 ++ calls t2.
Proof.
  induction t1 as [|a t1 IH]; [reflexivity|].
  destruct a; simpl; rewrite IH; reflexivity.
Qed.

Lemma slide_requests_app t1 t2 :
  slide_requests (t1 ++ t2) = slide_requests t1 ++ slide_requests t2.
Proof.
  induction t1 as [|a t1 IH]; [reflexivity|].
  destruct a as [| |[]]; simpl; rewrite IH; reflexivity.
Qed.

Lemma added_elements_app t1 t2 :
  added_elements (t1 ++ t2) = added_elements t1 ++ added_elements t2.
Proof.
  induction t1 as [|a t1 IH]; [reflexivity|].
  destruct a as [| |[]]; simpl; rewrite IH; reflexivity.
Qed.

Lemma respects_bind {A B} Inv P (m : M A) (k : A -> M B) :
  respects Inv P m -> (forall a, respects Inv P (k a)) ->
  respects Inv P (bind m k).
Proof.
  intros Hm Hk g Hg. destruct (Hm g Hg) as [Hi Ht].
  rewrite globals_bind, trace_bind.
  destruct (outcome (m g)) as [a| | |]; rewrite ?app_nil_r;
    try (split; assumption).
  destruct (Hk a _ Hi) as [Hi' Ht']. split; [assumption|].
  apply Forall_app. split; assumption.
Qed.

Lemma respects_emit Inv (P : Action -> Prop) a : P a -> respects Inv P (emit a).
Proof. intros H g Hg. split; [exact Hg|]. repeat constructor. exact H. Qed.

Lemma respects_ret {A} Inv P (a : A) : respects Inv P (ret a).
Proof. intros g Hg. split; [exact Hg|constructor]. Qed.

Lemma respects_exit {A} Inv P n : respects Inv P (@exit A n).
Proof. intros g Hg. split; [exact Hg|constructor]. Qed.

Lemma respects_fault {A} Inv P : respects Inv P (@fault A).
Proof. intros g Hg. split; [exact Hg|constructor]. Qed.

Lemma respects_diverge {A} Inv P : respects Inv P (@diverge A).
Proof. intros g Hg. split; [exact Hg|constructor]. Qed.

Lemma respects_if {A} Inv P (b : bool) (m1 m2 : M A) :
  respects Inv P m1 -> respects Inv P m2 ->
  respects Inv P (if b then m1 else m2).
Proof. destruct b; auto. Qed.

Ltac respects_step :=
  first
    [ apply respects_bind; [|intros ?]
    | apply respects_if
    | apply respects_emit; first [exact I | reflexivity | discriminate]
    | apply respects_ret
    | apply respects_exit
    | apply respects_fault
    | apply respects_diverge ].

(** ** The option loop of [main] *)

Lemma usage_run g : usage g = mkRun usage_output g (Ret tt).
Proof. reflexivity. Qed.

Lemma parse_options_other opts : forall g c,
  first_other_option opts = Some c ->
  trace (parse_options opts g) = usage_output
  /\ outcome (parse_options opts g) = Exit (if c =? opt_h then 0 else 1).
Proof.
  unfold first_other_option.
  induction opts as [|c0 rest IH]; intros g c; [discriminate|].
  rewrite parse_options_cons. cbn [options_seen].
  destruct (c0 =? -1) eqn:E1; [discriminate|]. cbn [find].
  destruct (Z.eqb_spec c0 opt_k) as [->|Hk]; cbn [negb].
  - cbn [trace outcome]. apply IH.
  - intros [= <-]. rewrite usage_run.
    destruct (c0 =? opt_h); split; reflexivity.
Qed.

Lemma parse_options_only_k opts : forall g,
  first_other_option opts = None ->
  parse_options opts g =
  mkRun [] (mkGlobals (buttonNextID g) (buttonPreviousID g)
              (if existsb (Z.eqb opt_k) (options_seen opts) then 1
               else driveKeynote g))
        (Ret tt).
Proof.
  unfold first_other_option.
  induction opts as [|c0 rest IH]; intros g; [destruct g; reflexivity|].
  rewrite parse_options_cons. cbn [options_seen].
  destruct (c0 =? -1) eqn:E1; [destruct g; reflexivity|]. cbn [find existsb].
  destruct (Z.eqb_spec c0 opt_k) as [->|Hk]; cbn [negb]; [|discriminate].
  intros H. rewrite (IH _ H). cbn [buttonNextID buttonPreviousID driveKeynote].
  rewrite Z.eqb_refl. cbn [orb].
  destruct (existsb (Z.eqb opt_k) (options_seen rest)); reflexivity.
Qed.

Lemma run_main_other_option fuel opts w c :
  first_other_option opts = Some c ->
  trace (run_main fuel opts w) = usage_output
  /\ outcome (run_main fuel opts w) = Exit (if c =? opt_h then 0 else 1).
Proof.
  intros H. unfold run_main, main.
  destruct (parse_options_other opts initial_globals c H) as [Ht Ho].
  rewrite bind_unfold, Ho. cbn [trace outcome].
  split; [exact Ht|reflexivity].
Qed.

(** X1: when [getopt_long] returns, before -1, a value other than 'k', the
    program prints the usage text on standard output, seven writes that
    begin with the name and version, and exits, with status 0 if the first
    such value is 'h' and 1 otherwise; it makes no framework call, whatever
    options came before or after.  When that value is 'h' the usage text is
    all the run does, and nothing goes to standard error.  (For another
    value the statement is about the program's own writes and leaves
    standard error out: [getopt_long] writes a diagnostic of its own before
    it returns '?'.) *)
Theorem X1_other_option_prints_usage (fuel : nat) (opts : list Z) (w : World)
  (c : Z) :
  first_other_option opts = Some c ->
  let r := run_main fuel opts w in
  outcome r = Exit (if c =? opt_h then 0 else 1)
  /\ written stdout (trace r) = written stdout usage_output
  /\ List.length (written stdout (trace r)) = 7%nat
  /\ hd_error (written stdout (trace r))
     = Some (PROGNAME ++ " (version " ++ PROGVERS ++ ")" ++ nl)%string
  /\ calls (trace r) = []
  /\ (c = opt_h -> trace r = usage_output /\ written stderr (trace r) = []).
Proof.
  intros H. cbv zeta.
  destruct (run_main_other_option fuel opts w c H) as [Et Eo].
  rewrite Et, Eo. repeat split; reflexivity.
Qed.

Lemma X1_other_option_prints_usage_witness :
  outcome (run_main 0 [opt_k; 63; opt_h] plain_world) = Exit 1
  /\ outcome (run_main 0 [opt_k; opt_h; 63] plain_world) = Exit 0.
Proof.
  split.
  - apply (X1_other_option_prints_usage 0 [opt_k; 63; opt_h] plain_world 63).
    reflexivity.
  - apply (X1_other_option_prints_usage 0 [opt_k; opt_h; 63] plain_world
             opt_h).
    reflexivity.
Defined.

(** X2: the option loop returns to [main] exactly when every value
    [getopt_long] returns before -1 is 'k'; it has then written nothing, left
    the two button identifiers alone and set [driveKeynote] to 1 if 'k'
    occurred at all, however often, and left it alone otherwise.  Values
    after -1 are never looked at. *)
Theorem X2_option_loop_returns (opts : list Z) (g : Globals) :
  (outcome (parse_options opts g) = Ret tt <-> first_other_option opts = None)
  /\ (first_other_option opts = None ->
      parse_options opts g =
      mkRun [] (mkGlobals (buttonNextID g) (buttonPreviousID g)
                  (if existsb (Z.eqb opt_k) (options_seen opts) then 1
                   else driveKeynote g))
            (Ret tt))
  /\ (forall more,
        parse_options (opts ++ -1 :: more) g = parse_options opts g).
Proof.
  split; [|split].
  - split.
    + intros H.
      destruct (first_other_option opts) as [c|] eqn:E; [|reflexivity].
      destruct (parse_options_other opts g c E) as [_ Ho].
      rewrite Ho in H. discriminate.
    + intros H. rewrite (parse_options_only_k opts g H). reflexivity.
  - apply parse_options_only_k.
  - intros more. revert g.
    induction opts as [|c0 rest IH]; intros g.
    + cbn [app]. rewrite parse_options_cons. reflexivity.
    + cbn [app]. rewrite !parse_options_cons.
      destruct (c0 =? -1); [reflexivity|].
      destruct (c0 =? opt_h); [reflexivity|].
      destruct (c0 =? opt_k); [|reflexivity].
      rewrite IH. reflexivity.
Qed.

Lemma X2_option_loop_returns_witness :
  parse_options [opt_k; opt_k; -1; 63] initial_globals
  = mkRun [] (mkGlobals 0 0 1) (Ret tt).
Proof.
  apply (proj1 (proj2 (X2_option_loop_returns [opt_k; opt_k; -1; 63]
                         initial_globals))).
  reflexivity.
Defined.

(** ** Apple events *)

(** X3: [KeynoteChangeSlide] always returns to its caller, with the first
    nonzero status of the two calls, so with [noErr] exactly when the event
    was built and sent; it writes to standard error exactly when it returns
    a nonzero status, never to standard output; [AESend] and the two
    [AEDisposeDesc] are called exactly when the event was built. *)
Theorem X3_KeynoteChangeSlide_status (eventID build send : Z) (g : Globals) :
  let r := KeynoteChangeSlide eventID build send g in
  let err := if build =? noErr then send else build in
  outcome r = Ret err
  /\ globals r = g
  /\ (err = noErr <-> build = noErr /\ send = noErr)
  /\ (written stderr (trace r) = [] <-> err = noErr)
  /\ written stdout (trace r) = []
  /\ calls (trace r) =
     AEBuildAppleEvent keynoteEventClass eventID keynoteID
     :: (if build =? noErr then [AESend; AEDisposeDesc; AEDisposeDesc]
         else []).
Proof.
  cbv zeta. destruct (Z.eqb_spec build noErr) as [->|Hb].
  - rewrite KeynoteChangeSlide_built. cbn [outcome globals trace].
    destruct (Z.eqb_spec send noErr) as [->|Hs]; cbn;
      repeat split; intros; try reflexivity; try discriminate;
      try tauto.
  - rewrite KeynoteChangeSlide_build_failed by assumption.
    cbn [outcome globals trace]. cbn.
    repeat split; intros; try reflexivity; try discriminate; try tauto.
Qed.

(** ** Forwarding by the callback *)

Lemma requests_of_dispatch event build send g :
  slide_requests (trace (dispatch_event event build send g))
  = requests_of g event.
Proof. unfold requests_of. rewrite !dispatch_event_requests. reflexivity. Qed.

Lemma callback_loop_requests fuel env : forall i g,
  slide_requests (trace (callback_loop fuel env i g))
  = flat_map (requests_of g) (dequeued fuel env i).
Proof.
  induction fuel as [|fuel IH]; intros i g; [reflexivity|].
  rewrite callback_loop_S. cbn [dequeued].
  destruct (fst (nextEvent env i) =? 0); [|reflexivity].
  cbn [trace slide_requests flat_map].
  rewrite slide_requests_app, requests_of_dispatch, IH. reflexivity.
Qed.

Lemma requests_of_off g event : driveKeynote g = 0 -> requests_of g event = [].
Proof.
  intros H. unfold requests_of. rewrite dispatch_event_requests, H.
  rewrite andb_false_r. reflexivity.
Qed.

Lemma requests_of_release g event : value event = 0 -> requests_of g event = [].
Proof.
  intros H. unfold requests_of. rewrite dispatch_event_requests, H.
  reflexivity.
Qed.

Lemma requests_of_length g event : (List.length (requests_of g event) <= 1)%nat.
Proof.
  unfold requests_of. rewrite dispatch_event_requests.
  destruct (negb (value event =? 0) && negb (driveKeynote g =? 0));
    [|cbn; lia].
  destruct (elementCookie event =? buttonNextID g); [cbn; lia|].
  destruct (elementCookie event =? buttonPreviousID g); cbn; lia.
Qed.

Lemma flat_map_nil {A B} (f : A -> list B) (l : list A) :
  (forall a, In a l -> f a = []) -> flat_map f l = [].
Proof.
  induction l as [|a l IH]; intros H; [reflexivity|].
  cbn [flat_map]. rewrite (H a (or_introl eq_refl)).
  apply IH. intros b Hb. apply H. right. exact Hb.
Qed.

Lemma flat_map_length_le {A B} (f : A -> list B) (l : list A) :
  (forall a, (List.length (f a) <= 1)%nat) ->
  (List.length (flat_map f l) <= List.length l)%nat.
Proof.
  intros H. induction l as [|a l IH]; [cbn; lia|].
  cbn [flat_map]. rewrite length_app. cbn [List.length].
  specialize (H a). lia.
Qed.

(** X4: the slide steps one invocation of the callback asks for are those
    of its dequeued events, one after the other in queue order, each decided
    by the event and the globals alone: the answer of an earlier Apple-event
    call, failed or not, changes nothing for the later events.  There is at
    most one request per event, none for an event whose value is zero, and
    none at all while [driveKeynote] is zero. *)
Theorem X4_callback_forwards_each_event (fuel : nat) (env : QueueEnv)
  (g : Globals) :
  let requests :=
    slide_requests (trace (QueueCallbackFunction fuel env g)) in
  requests = flat_map (requests_of g) (dequeued fuel env 0)
  /\ (List.length requests <= List.length (dequeued fuel env 0))%nat
  /\ (driveKeynote g = 0 -> requests = [])
  /\ ((forall event, In event (dequeued fuel env 0) -> value event = 0) ->
      requests = [])
  /\ (forall build send,
        slide_requests
          (trace (QueueCallbackFunction fuel
                    (mkQueueEnv (nextEvent env) build send) g))
        = requests).
Proof.
  cbv zeta. unfold QueueCallbackFunction. rewrite callback_loop_requests.
  split; [reflexivity|]. split; [|split; [|split]].
  - apply flat_map_length_le. apply requests_of_length.
  - intros H. apply flat_map_nil. intros e _. apply requests_of_off, H.
  - intros H. apply flat_map_nil. intros e He.
    apply requests_of_release, H, He.
  - intros build send. rewrite callback_loop_requests.
    assert (D : forall fuel' i,
               dequeued fuel' (mkQueueEnv (nextEvent env) build send) i
               = dequeued fuel' env i).
    { induction fuel' as [|fuel' IH]; intros i; [reflexivity|].
      cbn [dequeued nextEvent]. rewrite IH. reflexivity. }
    rewrite D. reflexivity.
Qed.

Lemma X4_callback_forwards_each_event_witness :
  slide_requests (trace (QueueCallbackFunction 3 two_events initial_globals))
  = [].
Proof.
  apply (proj1 (proj2 (proj2
           (X4_callback_forwards_each_event 3 two_events initial_globals)))).
  reflexivity.
Defined.

(** ** Where the program can exit *)

Lemma outcome_bind {A B} (m : M A) (k : A -> M B) (g : Globals) :
  outcome (bind m k g) =
  match outcome (m g) with
  | Ret a => outcome (k a (globals (m g)))
  | Exit n => Exit n
  | Fault => Fault
  | Diverge => Diverge
  end.
Proof. unfold bind. destruct (outcome (m g)); reflexivity. Qed.

Lemma never_exits_bind {A B} (m : M A) (k : A -> M B) :
  never_exits m -> (forall a, never_exits (k a)) -> never_exits (bind m k).
Proof.
  intros Hm Hk g. rewrite outcome_bind. specialize (Hm g).
  destruct (outcome (m g)); try reflexivity; [apply Hk|discriminate].
Qed.

Lemma never_exits_emit a : never_exits (emit a).
Proof. intros g. reflexivity. Qed.

Lemma never_exits_ret {A} (a : A) : never_exits (ret a).
Proof. intros g. reflexivity. Qed.

Lemma never_exits_fault {A} : never_exits (@fault A).
Proof. intros g. reflexivity. Qed.

Lemma never_exits_if {A} (b : bool) (m1 m2 : M A) :
  never_exits m1 -> never_exits m2 -> never_exits (if b then m1 else m2).
Proof. destruct b; auto. Qed.

Ltac never_exits_step :=
  first
    [ apply never_exits_bind; [|intros ?]
    | apply never_exits_if
    | apply never_exits_emit
    | apply never_exits_ret
    | apply never_exits_fault ].

Lemma never_exits_callback_loop fuel env : forall i,
  never_exits (callback_loop fuel env i).
Proof.
  induction fuel as [|fuel IH]; intros i g; [reflexivity|].
  rewrite callback_loop_S.
  destruct (fst (nextEvent env i) =? 0); [|reflexivity].
  cbn [outcome]. apply IH.
Qed.

Lemma never_exits_dispatch_wakeups fuel ws :
  never_exits (dispatch_wakeups fuel ws).
Proof.
  induction ws as [|env rest IH]; cbn [dispatch_wakeups].
  - apply never_exits_ret.
  - apply never_exits_bind; [apply never_exits_callback_loop|].
    intros _. exact IH.
Qed.

Lemma never_exits_processQueue fuel w cookies :
  never_exits (processQueue fuel w cookies).
Proof.
  unfold processQueue, runLoopRun, addQueueCallbacks, call, fprintf.
  repeat first [ apply never_exits_dispatch_wakeups | never_exits_step ].
Qed.

Lemma never_exits_doRun fuel w cookies : never_exits (doRun fuel w cookies).
Proof.
  unfold doRun, call.
  repeat first [ apply never_exits_processQueue | never_exits_step ].
Qed.

Lemma reports_before_exit_bind {A B} (m : M A) (k : A -> M B) :
  reports_before_exit m -> (forall a, reports_before_exit (k a)) ->
  reports_before_exit (bind m k).
Proof.
  intros Hm Hk g. destruct (Hm g) as [Ho He].
  rewrite trace_bind, outcome_bind.
  destruct (outcome (m g)) as [a| | |] eqn:E; rewrite ?app_nil_r.
  - destruct (Hk a (globals (m g))) as [Ho' He']. split.
    + rewrite calls_app. intros Hin. apply in_app_or in Hin. tauto.
    + intros n Hn. destruct (He' n Hn) as [H1 H2]. split; [exact H1|].
      rewrite written_app. intros Hw. apply app_eq_nil in Hw. tauto.
  - split; [exact Ho|]. intros n' [= <-]. apply He. reflexivity.
  - split; [exact Ho|]. discriminate.
  - split; [exact Ho|]. discriminate.
Qed.

Lemma reports_before_exit_emit a :
  a <> Call deviceOpen -> reports_before_exit (emit a).
Proof.
  intros Ha g. split; [|discriminate].
  destruct a as [| |c]; cbn; try tauto.
  intros [->|[]]. apply Ha. reflexivity.
Qed.

Lemma reports_before_exit_ret {A} (a : A) : reports_before_exit (ret a).
Proof. intros g. split; [intros []|discriminate]. Qed.

Lemma reports_before_exit_fault {A} : reports_before_exit (@fault A).
Proof. intros g. split; [intros []|discriminate]. Qed.

Lemma reports_before_exit_if {A} (b : bool) (m1 m2 : M A) :
  reports_before_exit m1 -> reports_before_exit m2 ->
  reports_before_exit (if b then m1 else m2).
Proof. destruct b; auto. Qed.

Lemma reports_before_exit_message {A} s n :
  n = 1 \/ n = EX_OSERR ->
  reports_before_exit (fprintf stderr s ;; @exit A n).
Proof.
  intros Hn g. split; [cbn; tauto|].
  intros n' [= <-]. split; [exact Hn|discriminate].
Qed.

Lemma reports_before_exit_flushed {A} s n :
  n = 1 \/ n = EX_OSERR ->
  reports_before_exit (fprintf stderr s ;; fflush stderr ;; @exit A n).
Proof.
  intros Hn g. split; [cbn; tauto|].
  intros n' [= <-]. split; [exact Hn|discriminate].
Qed.

Lemma reports_before_exit_print_errmsg_if_io_err mes expr msg :
  reports_before_exit (print_errmsg_if_io_err mes expr msg).
Proof.
  unfold print_errmsg_if_io_err. apply reports_before_exit_if.
  - apply reports_before_exit_flushed. right. reflexivity.
  - apply reports_before_exit_ret.
Qed.

Lemma reports_before_exit_print_errmsg_if_err expr msg :
  reports_before_exit (print_errmsg_if_err expr msg).
Proof.
  unfold print_errmsg_if_err. apply reports_before_exit_if.
  - apply reports_before_exit_flushed. right. reflexivity.
  - apply reports_before_exit_ret.
Qed.

Lemma reports_before_exit_createHIDDeviceInterface w hdi :
  reports_before_exit (createHIDDeviceInterface w hdi).
Proof.
  unfold createHIDDeviceInterface, call.
  repeat first
    [ apply reports_before_exit_print_errmsg_if_io_err
    | apply reports_before_exit_print_errmsg_if_err
    | apply reports_before_exit_bind; [|intros ?]
    | apply reports_before_exit_if
    | apply reports_before_exit_emit; discriminate
    | apply reports_before_exit_ret ].
Qed.

Lemma reports_before_exit_getHIDCookies malloc_ok result elements handle :
  reports_before_exit (getHIDCookies malloc_ok result elements handle).
Proof.
  intros g. rewrite getHIDCookies_run.
  destruct malloc_ok; cbn [negb].
  - destruct handle; try (split; [intros []|discriminate]).
    destruct (result =? kIOReturnSuccess).
    + split; [cbn; intuition discriminate|discriminate].
    + split; [cbn; intuition discriminate|].
      intros n [= <-]. split; [left; reflexivity|discriminate].
  - split; [cbn; tauto|].
    intros n [= <-]. split; [left; reflexivity|discriminate].
Qed.

Lemma exits_before_open_of_reports {A} (m : M A) :
  reports_before_exit m -> exits_before_open m.
Proof.
  intros H g n Hn. destruct (H g) as [Ho He].
  destruct (He n Hn) as [H1 H2]. repeat split; assumption.
Qed.

Lemma exits_before_open_of_never {A} (m : M A) :
  never_exits m -> exits_before_open m.
Proof. intros H g n Hn. specialize (H g). rewrite Hn in H. discriminate. Qed.

Lemma exits_before_open_bind {A B} (m : M A) (k : A -> M B) :
  reports_before_exit m -> (forall a, exits_before_open (k a)) ->
  exits_before_open (bind m k).
Proof.
  intros Hm Hk g n. destruct (Hm g) as [Ho He].
  rewrite trace_bind, outcome_bind.
  destruct (outcome (m g)) as [a| | |] eqn:E; rewrite ?app_nil_r;
    try discriminate.
  - intros Hn. destruct (Hk a _ n Hn) as (H1 & H2 & H3).
    split; [exact H1|]. split.
    + rewrite written_app. intros Hw. apply app_eq_nil in Hw. tauto.
    + rewrite calls_app. intros Hin. apply in_app_or in Hin. tauto.
  - intros [= <-]. destruct (He _ eq_refl) as [H1 H2].
    repeat split; assumption.
Qed.

Lemma exits_before_open_setupAndRun fuel w :
  exits_before_open (setupAndRun fuel w).
Proof.
  unfold setupAndRun, call.
  apply exits_before_open_bind;
    [apply reports_before_exit_emit; discriminate|intros _].
  apply exits_before_open_bind;
    [apply reports_before_exit_emit; discriminate|intros _].
  destruct (hidService w =? 0).
  { apply exits_before_open_of_reports, reports_before_exit_message.
    left. reflexivity. }
  apply exits_before_open_bind;
    [apply reports_before_exit_createHIDDeviceInterface|intros h].
  apply exits_before_open_bind;
    [apply reports_before_exit_getHIDCookies|intros cookies].
  apply exits_before_open_bind;
    [apply reports_before_exit_emit; discriminate|intros _].
  apply exits_before_open_bind;
    [apply reports_before_exit_print_errmsg_if_io_err|intros _].
  destruct h.
  - apply exits_before_open_of_reports, reports_before_exit_message.
    left. reflexivity.
  - apply exits_before_open_of_never, never_exits_fault.
  - apply exits_before_open_of_never. unfold call.
    repeat first [ apply never_exits_doRun | never_exits_step ].
Qed.

(** X5: whenever the program calls [exit], it has not opened the device:
    once the device is open the run ends by returning from [main], never by
    [exit].  The status of an exit is 0, 1 or EX_OSERR; it is 0 exactly when
    the first option other than 'k' is 'h', and when the option loop has
    returned the exit is nonzero and follows a message on standard error. *)
Theorem X5_exit_only_before_open (fuel : nat) (opts : list Z) (w : World)
  (n : Z) :
  let r := run_main fuel opts w in
  outcome r = Exit n ->
  ~ In deviceOpen (calls (trace r))
  /\ (n = 0 \/ n = 1 \/ n = EX_OSERR)
  /\ (n = 0 <-> first_other_option opts = Some opt_h)
  /\ (first_other_option opts = None ->
      n <> 0 /\ written stderr (trace r) <> []).
Proof.
  cbv zeta. destruct (first_other_option opts) as [c|] eqn:E.
  - destruct (run_main_other_option fuel opts w c E) as [Et Eo].
    rewrite Et, Eo. intros [= <-].
    split; [intros []|].
    destruct (Z.eqb_spec c opt_h) as [->|Hc].
    + split; [left; reflexivity|]. split; [tauto|discriminate].
    + split; [right; left; reflexivity|]. split; [|discriminate].
      split; [discriminate|]. intros [= Hc']. contradiction.
  - assert (Hp : outcome (parse_options opts initial_globals) = Ret tt)
      by (rewrite (parse_options_only_k opts initial_globals E); reflexivity).
    unfold run_main. rewrite (main_run fuel opts w initial_globals Hp).
    cbv zeta. cbn [trace outcome].
    set (g := globals (parse_options opts initial_globals)).
    pose proof (exits_before_open_setupAndRun fuel w g) as Hs.
    destruct (outcome (setupAndRun fuel w g)) as [[]|m| |];
      try discriminate.
    intros [= <-]. destruct (Hs m eq_refl) as (H1 & H2 & H3).
    split; [exact H3|].
    assert (Hm : m <> 0) by (destruct H1 as [->| ->]; discriminate).
    split; [tauto|]. split; [split; [contradiction|discriminate]|].
    intros _. split; assumption.
Qed.

Lemma X5_exit_only_before_open_witness :
  ~ In deviceOpen (calls (trace (run_main 0 [] no_plugin_world))).
Proof.
  apply (X5_exit_only_before_open 0 [] no_plugin_world 1). reflexivity.
Defined.

(** ** What the callback and the queue setup do *)

Lemma callback_action_KeynoteChangeSlide eventID build send g :
  Forall (fun a => callback_action a = true)
         (trace (KeynoteChangeSlide eventID build send g)).
Proof.
  destruct (Z.eqb_spec build noErr) as [->|Hb].
  - rewrite KeynoteChangeSlide_built. cbn [trace].
    destruct (send =? noErr); repeat constructor.
  - rewrite KeynoteChangeSlide_build_failed by assumption.
    repeat constructor.
Qed.

Lemma callback_action_dispatch_event event build send g :
  Forall (fun a => callback_action a = true)
         (trace (dispatch_event event build send g)).
Proof.
  rewrite dispatch_event_trace. constructor; [reflexivity|].
  constructor; [reflexivity|].
  destruct (negb (value event =? 0) && negb (driveKeynote g =? 0));
    [|constructor].
  destruct (elementCookie event =? buttonNextID g);
    [apply callback_action_KeynoteChangeSlide|].
  destruct (elementCookie event =? buttonPreviousID g);
    [apply callback_action_KeynoteChangeSlide|constructor].
Qed.

Lemma callback_action_callback_loop fuel env : forall i g,
  Forall (fun a => callback_action a = true)
         (trace (callback_loop fuel env i g)).
Proof.
  induction fuel as [|fuel IH]; intros i g; [constructor|].
  rewrite callback_loop_S.
  destruct (fst (nextEvent env i) =? 0); [|repeat constructor].
  cbn [trace]. constructor; [reflexivity|].
  apply Forall_app. split; [apply callback_action_dispatch_event|apply IH].
Qed.

Lemma callback_loop_outcome fuel env : forall i g,
  outcome (callback_loop fuel env i g) = Ret tt
  \/ outcome (callback_loop fuel env i g) = Diverge.
Proof.
  induction fuel as [|fuel IH]; intros i g; [right; reflexivity|].
  rewrite callback_loop_S.
  destruct (fst (nextEvent env i) =? 0); [apply IH|left; reflexivity].
Qed.

(** X6: whatever the queue and the Apple-event manager answer, an
    invocation of the callback only takes events off the queue, writes and
    flushes standard output, and builds, sends and disposes of Apple events
    (with a message on standard error when one fails): it makes no call on
    the device, the queue set-up or the run loop.  It never ends the
    process and never faults: it returns, or is still in its loop. *)
Theorem X6_callback_is_confined (fuel : nat) (env : QueueEnv) (g : Globals) :
  let r := QueueCallbackFunction fuel env g in
  Forall (fun a => callback_action a = true) (trace r)
  /\ (outcome r = Ret tt \/ outcome r = Diverge)
  /\ steps (trace r) = []
  /\ added_elements (trace r) = [].
Proof.
  cbv zeta. unfold QueueCallbackFunction.
  pose proof (callback_action_callback_loop fuel env 0%nat g) as H.
  split; [exact H|]. split; [apply callback_loop_outcome|].
  split; [apply steps_callback_loop|].
  induction H as [|a t Ha _ IH]; [reflexivity|].
  destruct a as [| |[]]; try discriminate; exact IH.
Qed.

Lemma added_elements_none t :
  Forall (fun a => is_add_element a = false) t -> added_elements t = [].
Proof.
  induction 1 as [|a t Ha _ IH]; [reflexivity|].
  destruct a as [| |[]]; try discriminate; exact IH.
Qed.

Lemma no_add_element_dispatch_wakeups fuel ws :
  respects (fun _ => True) (fun a => is_add_element a = false)
           (dispatch_wakeups fuel ws).
Proof.
  induction ws as [|env rest IH]; cbn [dispatch_wakeups].
  - apply respects_ret.
  - apply respects_bind; [|intros _; exact IH].
    intros g _. split; [exact I|].
    eapply Forall_impl;
      [|apply (callback_action_callback_loop fuel env 0%nat g)].
    intros [| |[]]; try discriminate; reflexivity.
Qed.

(** X7: once the queue is allocated, [processQueue] creates it with depth 8
    and adds exactly six elements to it, the fields of the cookie record in
    the order of their declaration, before anything else; a field that is
    still zero is added like the others, and nothing that follows, whether
    the registration of the callback fails or the loop runs, adds another. *)
Theorem X7_six_elements_are_queued (fuel : nat) (w : World)
  (cookies : cookie_struct) (g : Globals) :
  allocQueue_ok w = true ->
  added_elements (trace (processQueue fuel w cookies g))
  = cookie_fields cookies
  /\ firstn 8 (trace (processQueue fuel w cookies g))
     = Call allocQueue :: Call (queueCreate 0 8)
       :: map (fun c => Call (queueAddElement c)) (cookie_fields cookies).
Proof.
  intros H. unfold processQueue, call. rewrite bind_emit, H. cbn [negb].
  rewrite !bind_emit. cbn [trace firstn map cookie_fields added_elements].
  split; [|reflexivity].
  assert (R : forall m : M unit,
             respects (fun _ => True) (fun a => is_add_element a = false) m ->
             added_elements (trace (m g)) = []).
  { intros m Hm. apply added_elements_none. apply (Hm g I). }
  rewrite R; [reflexivity|].
  unfold addQueueCallbacks, runLoopRun, call.
  repeat first [ apply no_add_element_dispatch_wakeups | respects_step ].
Qed.

Lemma X7_six_elements_are_queued_witness :
  added_elements
    (trace (processQueue 3 plain_world (mkCookies 18 0 21 22 0 0)
              initial_globals))
  = [18; 0; 21; 22; 0; 0].
Proof.
  apply (proj1 (X7_six_elements_are_queued 3 plain_world
                  (mkCookies 18 0 21 22 0 0) initial_globals eq_refl)).
Defined.

Lemma processQueue_unregistered fuel w cookies g :
  allocQueue_ok w = true ->
  privateData_malloc_ok w = true ->
  registration_fails w = true ->
  processQueue fuel w cookies g =
  mkRun ([Call allocQueue; Call (queueCreate 0 8);
          Call (queueAddElement (gButtonCookie_SystemAppMenu cookies));
          Call (queueAddElement (gButtonCookie_SystemMenuSelect cookies));
          Call (queueAddElement (gButtonCookie_SystemMenuRight cookies));
          Call (queueAddElement (gButtonCookie_SystemMenuLeft cookies));
          Call (queueAddElement (gButtonCookie_SystemMenuUp cookies));
          Call (queueAddElement (gButtonCookie_SystemMenuDown cookies));
          Call createAsyncEventSource]
         ++ (if createAsyncEventSource_result w =? kIOReturnSuccess
             then [Call setEventCallout] else [])
         ++ [Call queueStart; Call CFRunLoopRun; Call queueStop;
             Call queueDispose; Call queueRelease])
        g (Ret tt).
Proof.
  unfold registration_fails. intros H1 H2 H3.
  apply negb_true_iff in H3.
  unfold processQueue, runLoopRun, call. rewrite bind_emit, H1. cbn [negb].
  rewrite !bind_emit.
  assert (A : exists t,
             addQueueCallbacks w g = mkRun t g (Ret false)
             /\ t = Call createAsyncEventSource
                    :: (if createAsyncEventSource_result w =? kIOReturnSuccess
                        then [Call setEventCallout] else [])).
  { rewrite (addQueueCallbacks_run w g H2).
    destruct (createAsyncEventSource_result w =? kIOReturnSuccess);
      cbn [negb andb] in *.
    - rewrite H3. cbn [negb]. eexists. split; reflexivity.
    - eexists. split; reflexivity. }
  destruct A as (t & A & ->).
  rewrite (bind_run_eq _ _ g _ g false A).
  destruct (createAsyncEventSource_result w =? kIOReturnSuccess); reflexivity.
Qed.

(** X8: when the queue is allocated but the callback cannot be registered
    ([createAsyncEventSource] or [setEventCallout] fails), nothing is
    reported: the program starts the queue and enters the run loop all the
    same, with no source added to it, so that no event is ever taken off
    the queue or printed; when the loop returns the queue and the device are
    released and [main] returns 0, standard output and standard error both
    empty. *)
Theorem X8_registration_failure_is_silent (fuel : nat) (opts : list Z)
  (w : World) :
  first_other_option opts = None ->
  device_ready w = true ->
  allocQueue_ok w = true ->
  privateData_malloc_ok w = true ->
  registration_fails w = true ->
  let r := run_main fuel opts w in
  outcome r = Ret 0
  /\ written stdout (trace r) = []
  /\ written stderr (trace r) = []
  /\ In CFRunLoopRun (calls (trace r))
  /\ ~ In CFRunLoopAddSource (calls (trace r))
  /\ ~ In getNextEvent (calls (trace r)).
Proof.
  intros Ho Hd Ha Hm Hr. cbv zeta.
  assert (Hp : outcome (parse_options opts initial_globals) = Ret tt)
    by (rewrite (parse_options_only_k opts initial_globals Ho); reflexivity).
  unfold run_main. rewrite (main_run fuel opts w initial_globals Hp).
  cbv zeta. set (g := globals (parse_options opts initial_globals)).
  rewrite (setupAndRun_ready fuel w g _ Hd
             (doRun_run fuel w _ _ _
                (processQueue_unregistered fuel w _ _ Ha Hm Hr))).
  cbn [trace outcome]. unfold setup_calls.
  destruct (createAsyncEventSource_result w =? kIOReturnSuccess);
    destruct (open_doRun w =? KERN_SUCCESS);
    destruct (open_setupAndRun w =? KERN_SUCCESS);
    cbn [app written calls In];
    (split; [reflexivity|]); (split; [reflexivity|]);
    (split; [reflexivity|]); (split; [tauto|]);
    split; intuition discriminate.
Qed.

Lemma X8_registration_failure_is_silent_witness :
  written stdout (trace (run_main 3 [opt_k] no_callout_world)) = []
  /\ outcome (run_main 3 [opt_k] no_callout_world) = Ret 0.
Proof.
  pose proof (X8_registration_failure_is_silent 3 [opt_k] no_callout_world
                eq_refl eq_refl eq_refl eq_refl eq_refl) as (H1 & H2 & _).
  split; [exact H2|exact H1].
Defined.

(** ** Runs without the keynote option *)

Lemma off_callback_loop fuel env : forall i,
  respects forwarding_off (fun a => is_apple_event a = false)
           (callback_loop fuel env i).
Proof.
  unfold forwarding_off.
  induction fuel as [|fuel IH]; intros i g Hg; [split; [exact Hg|constructor]|].
  rewrite callback_loop_S.
  destruct (fst (nextEvent env i) =? 0);
    [|split; [exact Hg|repeat constructor]].
  cbn [globals trace]. destruct (IH (S i) g Hg) as [H1 H2].
  split; [exact H1|]. constructor; [reflexivity|].
  apply Forall_app. split; [|exact H2].
  rewrite dispatch_event_trace, Hg. rewrite andb_false_r.
  repeat constructor.
Qed.

Lemma off_dispatch_wakeups fuel ws :
  respects forwarding_off (fun a => is_apple_event a = false)
           (dispatch_wakeups fuel ws).
Proof.
  induction ws as [|env rest IH]; cbn [dispatch_wakeups].
  - apply respects_ret.
  - apply respects_bind; [apply off_callback_loop|intros _; exact IH].
Qed.

Lemma off_getHIDCookies malloc_ok result elements handle :
  respects forwarding_off (fun a => is_apple_event a = false)
           (getHIDCookies malloc_ok result elements handle).
Proof.
  intros g Hg. rewrite getHIDCookies_run.
  destruct malloc_ok; cbn [negb]; [|split; [exact Hg|repeat constructor]].
  destruct handle; try (split; [exact Hg|constructor]).
  destruct (result =? kIOReturnSuccess);
    (split; [exact Hg|repeat constructor]).
Qed.

Lemma off_setupAndRun fuel w :
  respects forwarding_off (fun a => is_apple_event a = false)
           (setupAndRun fuel w).
Proof.
  unfold setupAndRun, createHIDDeviceInterface, doRun, processQueue,
    runLoopRun, addQueueCallbacks, print_errmsg_if_io_err,
    print_errmsg_if_err, call, fprintf, fflush.
  repeat first
    [ apply off_getHIDCookies
    | apply off_dispatch_wakeups
    | respects_step
    | match goal with
      | |- respects _ _ (match ?h with _ => _ end) => destruct h
      end ].
Qed.

Lemma off_parse_options opts :
  existsb (Z.eqb opt_k) (options_seen opts) = false ->
  respects forwarding_off (fun a => is_apple_event a = false)
           (parse_options opts).
Proof.
  induction opts as [|c rest IH]; intros H g Hg;
    [split; [exact Hg|constructor]|].
  rewrite parse_options_cons. cbn [options_seen] in H.
  destruct (c =? -1); [split; [exact Hg|constructor]|].
  cbn [existsb] in H. apply orb_false_elim in H as [Hk Hr].
  rewrite Z.eqb_sym in Hk. rewrite Hk.
  destruct (c =? opt_h); (split; [exact Hg|repeat constructor]).
Qed.

Lemma slide_requests_none t :
  Forall (fun a => is_apple_event a = false) t -> slide_requests t = [].
Proof.
  induction 1 as [|a t Ha _ IH]; [reflexivity|].
  destruct a as [| |[]]; try discriminate; exact IH.
Qed.

(** X9: in a run in which [getopt_long] never returns 'k', [driveKeynote]
    is zero from start to end and the program makes no call on the
    Apple-event manager at all, whatever the device, the queue and the run
    loop answer and whatever events arrive. *)
Theorem X9_no_forwarding_without_option (fuel : nat) (opts : list Z)
  (w : World) :
  ~ In opt_k (options_seen opts) ->
  let r := run_main fuel opts w in
  Forall (fun a => is_apple_event a = false) (trace r)
  /\ slide_requests (trace r) = []
  /\ driveKeynote (globals r) = 0.
Proof.
  intros Hk. cbv zeta.
  assert (Hk' : existsb (Z.eqb opt_k) (options_seen opts) = false).
  { destruct (existsb (Z.eqb opt_k) (options_seen opts)) eqn:E;
      [|reflexivity].
    apply existsb_exists in E. destruct E as (x & Hx & Ex).
    apply Z.eqb_eq in Ex. subst x. contradiction. }
  assert (R : respects forwarding_off (fun a => is_apple_event a = false)
                (main fuel opts w)).
  { unfold main. apply respects_bind; [apply off_parse_options, Hk'|].
    intros _. apply respects_bind; [apply off_setupAndRun|].
    intros _. apply respects_ret. }
  destruct (R initial_globals eq_refl) as [H1 H2]. unfold run_main.
  split; [exact H2|]. split; [apply slide_requests_none, H2|exact H1].
Qed.

Lemma X9_no_forwarding_without_option_witness :
  slide_requests (trace (run_main 3 [] plain_world)) = [].
Proof.
  apply (X9_no_forwarding_without_option 3 [] plain_world).
  intros [].
Defined.

(** ** The output of a whole run *)

Lemma dispatch_wakeups_trace fuel ws g :
  Forall (drains_within fuel) ws ->
  trace (dispatch_wakeups fuel ws g)
  = flat_map (fun env => trace (QueueCallbackFunction fuel env g)) ws.
Proof.
  induction 1 as [|env rest (n & [Hz Hnz] & Hn) _ IH]; [reflexivity|].
  cbn [dispatch_wakeups flat_map]. rewrite trace_bind.
  unfold QueueCallbackFunction in *.
  rewrite (callback_loop_drains env g n fuel 0%nat
             ltac:(intros j Hj; apply Hz; lia) Hnz Hn).
  cbn [outcome globals trace]. rewrite IH. reflexivity.
Qed.

Lemma written_flat_map {A} f (h : A -> list Action) (l : list A) :
  written f (flat_map h l) = flat_map (fun a => written f (h a)) l.
Proof.
  induction l as [|a l IH]; [reflexivity|].
  cbn [flat_map]. rewrite written_app, IH. reflexivity.
Qed.

Lemma slide_requests_flat_map {A} (h : A -> list Action) (l : list A) :
  slide_requests (flat_map h l)
  = flat_map (fun a => slide_requests (h a)) l.
Proof.
  induction l as [|a l IH]; [reflexivity|].
  cbn [flat_map]. rewrite slide_requests_app, IH. reflexivity.
Qed.

Lemma run_main_trace fuel opts w :
  first_other_option opts = None ->
  device_ready w = true ->
  queue_setup_ok w = true ->
  Forall (drains_within fuel) (wakeups w) ->
  let g := resolved_globals (elements w) (globals_after_options opts) in
  let cookies := resolved_cookies (elements w) in
  run_main fuel opts w =
  mkRun (setup_calls
         ++ [Call deviceOpen; Call deviceOpen; Call allocQueue;
             Call (queueCreate 0 8)]
         ++ map (fun c => Call (queueAddElement c)) (cookie_fields cookies)
         ++ [Call createAsyncEventSource; Call setEventCallout;
             Call CFRunLoopAddSource; Call queueStart; Call CFRunLoopRun]
         ++ flat_map (fun env => trace (QueueCallbackFunction fuel env g))
                     (wakeups w)
         ++ [Call queueStop; Call queueDispose; Call queueRelease]
         ++ (if open_doRun w =? KERN_SUCCESS then [Call deviceClose] else [])
         ++ [Call deviceRelease]
         ++ (if open_setupAndRun w =? KERN_SUCCESS then [Call deviceClose]
             else [])
         ++ [Call deviceRelease])
        g (Ret 0).
Proof.
  intros Ho Hd Hq Hw. cbv zeta. unfold globals_after_options.
  assert (Hp : outcome (parse_options opts initial_globals) = Ret tt)
    by (rewrite (parse_options_only_k opts initial_globals Ho); reflexivity).
  unfold run_main. rewrite (main_run fuel opts w initial_globals Hp).
  cbv zeta. set (g0 := globals (parse_options opts initial_globals)).
  rewrite (setupAndRun_ready fuel w g0 _ Hd
             (doRun_run fuel w _ _ _ (processQueue_run fuel w _ _ Hq Hw))).
  cbn [trace globals outcome]. rewrite (dispatch_wakeups_trace _ _ _ Hw).
  f_equal. f_equal. cbn [app map cookie_fields].
  rewrite <- !app_assoc. reflexivity.
Qed.

(** X10: in a run that gets through the set-up and whose wake-ups each
    drain the queue, standard output is exactly the lines of the events
    taken off the queue, wake-up after wake-up in the order of arrival, and
    nothing else; the slide steps requested are those of these events,
    decided with the identifiers cookie resolution cached and the
    [driveKeynote] the options set; neither depends on what the two opens
    or the Apple-event calls answer.  The globals at the end are the ones
    cookie resolution left. *)
Theorem X10_output_of_a_run (fuel : nat) (opts : list Z) (w : World) :
  first_other_option opts = None ->
  device_ready w = true ->
  queue_setup_ok w = true ->
  Forall (drains_within fuel) (wakeups w) ->
  let r := run_main fuel opts w in
  let g := mkGlobals
             (last (cookies_with_usage kHIDUsage_GD_SystemMenuRight
                      (elements w)) 0)
             (last (cookies_with_usage kHIDUsage_GD_SystemMenuLeft
                      (elements w)) 0)
             (if existsb (Z.eqb opt_k) (options_seen opts) then 1 else 0) in
  globals r = g
  /\ written stdout (trace r)
     = flat_map (fun env => map event_line (dequeued fuel env 0)) (wakeups w)
  /\ slide_requests (trace r)
     = flat_map (fun env => flat_map (requests_of g) (dequeued fuel env 0))
                (wakeups w).
Proof.
  intros Ho Hd Hq Hw. cbv zeta.
  rewrite (run_main_trace fuel opts w Ho Hd Hq Hw). cbv zeta.
  unfold globals_after_options.
  rewrite (parse_options_only_k opts initial_globals Ho).
  cbn [globals trace]. unfold resolved_globals.
  cbn [buttonNextID buttonPreviousID driveKeynote initial_globals].
  split; [reflexivity|].
  set (g := mkGlobals _ _ _).
  unfold setup_calls. cbn [app map cookie_fields written slide_requests].
  rewrite !written_app, !slide_requests_app.
  rewrite written_flat_map, slide_requests_flat_map.
  destruct (open_doRun w =? KERN_SUCCESS);
    destruct (open_setupAndRun w =? KERN_SUCCESS);
    cbn [app written slide_requests]; rewrite !app_nil_r;
    (split; apply flat_map_ext; intros env;
     unfold QueueCallbackFunction;
     [apply callback_loop_stdout|apply callback_loop_requests]).
Qed.

Lemma X10_output_of_a_run_witness :
  written stdout (trace (run_main 3 [opt_k] plain_world))
  = [("0x15 pressed" ++ nl)%string; ("0x15 depressed" ++ nl)%string]
  /\ slide_requests (trace (run_main 3 [opt_k] plain_world))
     = [slideForward].
Proof.
  pose proof (X10_output_of_a_run 3 [opt_k] plain_world eq_refl eq_refl
                eq_refl plain_world_wakeups) as (_ & H1 & H2).
  split; [rewrite H1|rewrite H2]; reflexivity.
Defined.

(** ** More on cookie resolution *)

Lemma cookies_with_usage_app usage l1 l2 :
  cookies_with_usage usage (l1 ++ l2)
  = cookies_with_usage usage l1 ++ cookies_with_usage usage l2.
Proof.
  induction l1 as [|e l1 IH]; [reflexivity|].
  cbn [app cookies_with_usage]. rewrite IH.
  destruct (generic_desktop_entry e) as [[u c]|]; [|reflexivity].
  destruct (u =? usage); reflexivity.
Qed.

Lemma cookies_with_usage_passed_over usage element :
  passed_over element -> In usage button_usages ->
  cookies_with_usage usage [element] = [].
Proof.
  intros H Hin. cbn [cookies_with_usage]. unfold generic_desktop_entry.
  destruct (CFNumberGetValue (kIOHIDElementCookieKey element))
    as [n|] eqn:Ec; [|reflexivity].
  destruct (CFNumberGetValue (kIOHIDElementUsageKey element))
    as [u|] eqn:Eu; [|reflexivity].
  destruct (CFNumberGetValue (kIOHIDElementUsagePageKey element))
    as [p|] eqn:Ep; [|reflexivity].
  destruct (Z.eqb_spec p kHIDPage_GenericDesktop) as [->|Hp]; [|reflexivity].
  destruct (Z.eqb_spec u usage) as [->|Hu]; [|reflexivity].
  exfalso. destruct H as [H|[H|[H|[H|H]]]].
  - rewrite Ec in H. discriminate.
  - rewrite Eu in H. discriminate.
  - rewrite Ep in H. discriminate.
  - apply H. exact Ep.
  - apply (H usage Eu Hin).
Qed.

Lemma cookies_with_usage_skip usage l1 element l2 :
  passed_over element -> In usage button_usages ->
  cookies_with_usage usage (l1 ++ element :: l2)
  = cookies_with_usage usage (l1 ++ l2).
Proof.
  intros H Hin.
  change (element :: l2) with ([element] ++ l2).
  rewrite !cookies_with_usage_app.
  rewrite (cookies_with_usage_passed_over usage element H Hin). reflexivity.
Qed.

(** X11: an element whose cookie, usage or usage page is absent, is not a
    number or cannot be read as a [long], or whose usage page is not Generic
    Desktop, or whose usage is none of the six button usages, has no effect
    on cookie resolution wherever it stands in the element list: the record
    returned, the cached identifiers, the trace and the outcome are those of
    the list without it. *)
Theorem X11_passed_over_elements_do_not_count (malloc_ok : bool) (result : Z)
  (l1 l2 : list Element) (element : Element) (handle : Handle) (g : Globals) :
  passed_over element ->
  getHIDCookies malloc_ok result (l1 ++ element :: l2) handle g
  = getHIDCookies malloc_ok result (l1 ++ l2) handle g.
Proof.
  intros H. rewrite !getHIDCookies_run.
  unfold resolved_globals, resolved_cookies.
  rewrite !(cookies_with_usage_skip _ l1 element l2 H) by (cbn; tauto).
  reflexivity.
Qed.

Lemma X11_passed_over_elements_do_not_count_witness :
  getHIDCookies true 0
    ([mkElement (Some (CFNumber (Some 21))) (Some (CFNumber (Some 0x8A)))
        (Some (CFNumber (Some 1)))]
     ++ mkElement (Some (CFNumber (Some 99))) (Some (CFNumber (Some 0x8A)))
          (Some (CFNumber None)) :: [])
    DeviceHandle initial_globals
  = mkRun [Call copyMatchingElements] (mkGlobals 21 0 0)
          (Ret (mkCookies 0 0 21 0 0 0)).
Proof.
  rewrite X11_passed_over_elements_do_not_count.
  - reflexivity.
  - right. right. left. reflexivity.
Defined.

Lemma UInt32_is_cookie x : is_cookie (UInt32 x).
Proof. unfold is_cookie, UInt32. apply Z.mod_pos_bound. lia. Qed.

Lemma cookies_with_usage_are_cookies usage elements :
  Forall is_cookie (cookies_with_usage usage elements).
Proof.
  induction elements as [|e rest IH]; [constructor|].
  cbn [cookies_with_usage]. unfold generic_desktop_entry.
  destruct (CFNumberGetValue (kIOHIDElementCookieKey e)) as [n|];
    [|exact IH].
  destruct (CFNumberGetValue (kIOHIDElementUsageKey e)) as [u|]; [|exact IH].
  destruct (CFNumberGetValue (kIOHIDElementUsagePageKey e)) as [p|];
    [|exact IH].
  destruct (p =? kHIDPage_GenericDesktop); [|exact IH].
  destruct (u =? usage); [|exact IH].
  constructor; [apply UInt32_is_cookie|exact IH].
Qed.

Lemma last_Forall {A} (P : A -> Prop) (l : list A) (d : A) :
  Forall P l -> P d -> P (last l d).
Proof.
  intros Hl. revert d. induction Hl as [|a l Ha _ IH]; intros d Hd;
    [exact Hd|].
  rewrite last_cons. apply IH. exact Ha.
Qed.

(** X12: when [getHIDCookies] returns a record, every one of its six fields
    is the cookie of the last element of the list with usage page Generic
    Desktop and the usage of that field, or zero when there is none or when
    the handle gave no list; every field fits in 32 bits, and so do the two
    cached identifiers afterwards if they did before. *)
Theorem X12_resolved_record (malloc_ok : bool) (result : Z)
  (elements : list Element) (handle : Handle) (g : Globals)
  (cookies : cookie_struct) :
  outcome (getHIDCookies malloc_ok result elements handle g) = Ret cookies ->
  cookie_fields cookies
  = map (fun usage =>
           match handle with
           | DeviceHandle => last (cookies_with_usage usage elements) 0
           | _ => 0
           end) button_usages
  /\ Forall is_cookie (cookie_fields cookies)
  /\ (is_cookie (buttonNextID g) -> is_cookie (buttonPreviousID g) ->
      let g' := globals (getHIDCookies malloc_ok result elements handle g) in
      is_cookie (buttonNextID g') /\ is_cookie (buttonPreviousID g')).
Proof.
  rewrite getHIDCookies_run.
  assert (Z0 : is_cookie 0) by (unfold is_cookie; lia).
  destruct malloc_ok; cbn [negb outcome]; [|discriminate].
  destruct handle; cbn [outcome globals].
  - intros [= <-]. split; [reflexivity|].
    split; [|cbv zeta; auto].
    repeat (apply Forall_cons; [exact Z0|]). apply Forall_nil.
  - intros [= <-]. split; [reflexivity|].
    split; [|cbv zeta; auto].
    repeat (apply Forall_cons; [exact Z0|]). apply Forall_nil.
  - destruct (result =? kIOReturnSuccess); cbn [outcome globals];
      [|discriminate].
    intros [= <-]. split; [reflexivity|]. split.
    + unfold resolved_cookies, cookie_fields.
      cbn [gButtonCookie_SystemAppMenu gButtonCookie_SystemMenuSelect
           gButtonCookie_SystemMenuRight gButtonCookie_SystemMenuLeft
           gButtonCookie_SystemMenuUp gButtonCookie_SystemMenuDown].
      repeat (apply Forall_cons;
              [apply last_Forall;
               [apply cookies_with_usage_are_cookies|exact Z0]|]).
      apply Forall_nil.
    + cbv zeta. intros Hn Hp. unfold resolved_globals.
      cbn [buttonNextID buttonPreviousID].
      split; (apply last_Forall;
              [apply cookies_with_usage_are_cookies|assumption]).
Qed.

Lemma X12_resolved_record_witness :
  cookie_fields (mkCookies 18 0 21 22 0 0)
  = map (fun usage => last (cookies_with_usage usage sample_elements) 0)
        button_usages.
Proof.
  apply (proj1 (X12_resolved_record true 0 sample_elements DeviceHandle
                  initial_globals (mkCookies 18 0 21 22 0 0) eq_refl)).
Defined.

(** X13: [getHIDCookies] fails in exactly two cases.  When the record
    cannot be allocated it writes "Failed to allocate cookie memory." to
    standard error and exits with status 1 without asking for the element
    list; when the handle and its interface are not null and
    [copyMatchingElements] does not return success it writes "Failed to copy
    cookies." and exits with status 1.  Either way the globals are left as
    they were.  In every other case it returns a record, having written
    nothing, and it has asked for the element list exactly when the handle
    and its interface are not null, in which case the call returned
    success.  It neither faults nor loops. *)
Theorem X13_getHIDCookies_failures (malloc_ok : bool) (result : Z)
  (elements : list Element) (handle : Handle) (g : Globals) :
  let r := getHIDCookies malloc_ok result elements handle g in
  (outcome r = Exit 1 <->
   malloc_ok = false
   \/ (handle = DeviceHandle /\ result <> kIOReturnSuccess))
  /\ (malloc_ok = false ->
      r = mkRun [Output stderr ("Failed to allocate cookie memory." ++ nl)]
                g (Exit 1))
  /\ (malloc_ok = true -> handle = DeviceHandle ->
      result <> kIOReturnSuccess ->
      r = mkRun [Call copyMatchingElements;
                 Output stderr ("Failed to copy cookies." ++ nl)]
                g (Exit 1))
  /\ (forall n, outcome r = Exit n ->
        n = 1
        /\ globals r = g
        /\ (exists msg, written stderr (trace r) = [msg])
        /\ (malloc_ok = false
            \/ (handle = DeviceHandle /\ result <> kIOReturnSuccess))
        /\ (malloc_ok = false -> calls (trace r) = []))
  /\ (forall cookies, outcome r = Ret cookies ->
        written stderr (trace r) = []
        /\ written stdout (trace r) = []
        /\ malloc_ok = true
        /\ (handle = DeviceHandle -> result = kIOReturnSuccess)
        /\ calls (trace r)
           = match handle with
             | DeviceHandle => [copyMatchingElements]
             | _ => []
             end)
  /\ ((exists cookies, outcome r = Ret cookies) <->
      malloc_ok = true
      /\ (handle = DeviceHandle -> result = kIOReturnSuccess))
  /\ outcome r <> Fault /\ outcome r <> Diverge.
Proof.
  cbv zeta. rewrite getHIDCookies_run.
  destruct malloc_ok;
    [destruct handle;
     [| |destruct (Z.eqb_spec result kIOReturnSuccess) as [E|E]]|];
    cbn [negb];
    repeat split; intros;
    cbn [outcome globals trace written calls] in *;
    repeat match goal with
           | H : _ \/ _ |- _ => destruct H
           | H : _ /\ _ |- _ => destruct H
           | H : exists _, _ |- _ => destruct H
           | H : ?a = ?a -> _ |- _ => specialize (H eq_refl)
           | H : Exit _ = Exit _ |- _ => injection H as H; try subst
           end;
    try discriminate; try contradiction; try reflexivity;
    try assumption; try congruence;
    try (eexists; reflexivity);
    try (left; reflexivity);
    try (right; split; [reflexivity|assumption]).
Qed.

Lemma X13_getHIDCookies_failures_witness :
  getHIDCookies true (-536870212) sample_elements DeviceHandle
    resolved_forwarding
  = mkRun [Call copyMatchingElements;
           Output stderr ("Failed to copy cookies." ++ nl)]
          resolved_forwarding (Exit 1).
Proof.
  apply (proj1 (proj2 (proj2
           (X13_getHIDCookies_failures true (-536870212) sample_elements
              DeviceHandle resolved_forwarding))));
    [reflexivity|reflexivity|discriminate].
Defined.

(** ** The printed line *)

Lemma occurs_hex_digits a d :
  a = " "%char ->
  occurs a (HexadecimalString.NilEmpty.string_of_uint d) = false.
Proof. intros ->. induction d; cbn; assumption || reflexivity. Qed.

Lemma occurs_fmt_alt_lx x : occurs " " (fmt_alt_lx x) = false.
Proof.
  unfold fmt_alt_lx, fmt_x. destruct (UInt32 x =? 0); [reflexivity|].
  cbn [append occurs]. cbn [Ascii.eqb Bool.eqb orb].
  unfold HexadecimalString.NilZero.string_of_uint.
  destruct (N.to_hex_uint (Z.to_N (UInt32 x)));
    try reflexivity; apply (occurs_hex_digits " "); reflexivity.
Qed.

Lemma append_split_unique a : forall s1 s2 r1 r2,
  occurs a s1 = false -> occurs a s2 = false ->
  (s1 ++ String a r1 = s2 ++ String a r2)%string ->
  s1 = s2 /\ r1 = r2.
Proof.
  induction s1 as [|b s1 IH]; intros [|c s2] r1 r2 H1 H2 E;
    cbn [append occurs] in *.
  - injection E as E. split; [reflexivity|exact E].
  - injection E as Ea E. subst c. rewrite Ascii.eqb_refl in H2. discriminate.
  - injection E as Ea E. subst b. rewrite Ascii.eqb_refl in H1. discriminate.
  - injection E as Eb E. subst c.
    apply orb_false_elim in H1 as [_ H1]. apply orb_false_elim in H2 as [_ H2].
    destruct (IH s2 r1 r2 H1 H2 E) as [-> ->]. split; reflexivity.
Qed.

Lemma fmt_alt_lx_inj x y :
  fmt_alt_lx x = fmt_alt_lx y -> UInt32 x = UInt32 y.
Proof.
  unfold fmt_alt_lx.
  destruct (Z.eqb_spec (UInt32 x) 0) as [Ex|Ex];
    destruct (Z.eqb_spec (UInt32 y) 0) as [Ey|Ey].
  - intros _. congruence.
  - cbn [append]. discriminate.
  - cbn [append]. discriminate.
  - cbn [append]. intros [= E].
    apply (f_equal read_x) in E. rewrite !read_x_fmt_x in E.
    injection E as E. exact E.
Qed.

(** X14: the line printed for an event tells exactly the low 32 bits of its
    cookie and whether its value is zero: two events give the same line if
    and only if their cookies agree modulo 2^32 and their values are both
    zero or both nonzero.  The digits after 0x read back, as a hexadecimal
    number, to the cookie modulo 2^32. *)
Theorem X14_line_identifies_event (e1 e2 : IOHIDEventStruct) :
  (event_line e1 = event_line e2 <->
   UInt32 (elementCookie e1) = UInt32 (elementCookie e2)
   /\ (value e1 = 0 <-> value e2 = 0))
  /\ read_x (fmt_x (elementCookie e1)) = Some (UInt32 (elementCookie e1)).
Proof.
  split; [|apply read_x_fmt_x]. split.
  - unfold event_line. intros E.
    apply append_split_unique in E; try apply occurs_fmt_alt_lx.
    destruct E as [Eh El]. apply fmt_alt_lx_inj in Eh.
    rewrite !UInt32_idem in Eh. split; [exact Eh|].
    destruct (Z.eqb_spec (value e1) 0) as [E1|E1];
      destruct (Z.eqb_spec (value e2) 0) as [E2|E2];
      try discriminate El; tauto.
  - intros [Ec Ev]. unfold event_line, fmt_alt_lx, fmt_x.
    rewrite !UInt32_idem, Ec.
    destruct (Z.eqb_spec (value e1) 0) as [E1|E1];
      destruct (Z.eqb_spec (value e2) 0) as [E2|E2];
      try reflexivity; tauto.
Qed.

(** ** When the device gets opened *)

Lemma setupAndRun_opens fuel w g :
  device_ready w = true ->
  exists t,
    trace (setupAndRun fuel w g) = setup_calls ++ Call deviceOpen :: t.
Proof.
  unfold device_ready. intros H.
  repeat (apply andb_prop in H as [H ?]).
  apply negb_true_iff in H.
  destruct (deviceInterface w) eqn:Hd; try discriminate.
  unfold setupAndRun, call. rewrite !bind_emit, H.
  assert (C : createHIDDeviceInterface w NullHandle g =
              mkRun [Call IOObjectGetClass;
                     Call IOCreatePlugInInterfaceForService;
                     Call QueryInterface; Call PlugInRelease]
                    g (Ret DeviceHandle)).
  { rewrite createHIDDeviceInterface_run.
    repeat match goal with E : (_ =? _) = true |- _ => rewrite E; clear E end.
    rewrite Hd. reflexivity. }
  unfold call in C. rewrite (bind_run_eq _ _ g _ g DeviceHandle C).
  assert (K : getHIDCookies (cookies_malloc_ok w)
                (copyMatchingElements_result w) (elements w) DeviceHandle g
              = mkRun [Call copyMatchingElements]
                      (resolved_globals (elements w) g)
                      (Ret (resolved_cookies (elements w)))).
  { rewrite getHIDCookies_run.
    repeat match goal with E : _ = true |- _ => rewrite E; clear E end.
    reflexivity. }
  rewrite (bind_run_eq _ _ g _ _ _ K).
  rewrite bind_emit. unfold print_errmsg_if_io_err.
  match goal with E : (objectRelease_result w =? _) = true |- _ =>
    rewrite E end.
  cbn [negb]. rewrite bind_ret_l, bind_emit. cbn [trace].
  eexists. unfold setup_calls. cbn [app]. reflexivity.
Qed.

Lemma setupAndRun_stops fuel w g :
  device_ready w = false ->
  ~ In deviceOpen (calls (trace (setupAndRun fuel w g)))
  /\ (exits (outcome (setupAndRun fuel w g))
      || match outcome (setupAndRun fuel w g) with
         | Fault => true
         | _ => false
         end) = true.
Proof.
  unfold device_ready. intros H.
  unfold setupAndRun, call. rewrite !bind_emit.
  destruct (hidService w =? 0) eqn:E0;
    [split; [cbn; intuition discriminate|reflexivity]|].
  cbn [negb andb] in H.
  rewrite bind_unfold, createHIDDeviceInterface_run.
  destruct (getClass_result w =? kIOReturnSuccess) eqn:E1; cbn [negb];
    [|split; [cbn; intuition discriminate|reflexivity]].
  destruct (createPlugIn_result w =? kIOReturnSuccess) eqn:E2; cbn [negb].
  - destruct (queryInterface_result w =? S_OK) eqn:E3; cbn [negb];
      [|split; [cbn; intuition discriminate|reflexivity]].
    cbn [andb] in H. cbn [outcome globals trace].
    rewrite bind_unfold, getHIDCookies_run.
    destruct (cookies_malloc_ok w) eqn:E4; cbn [negb];
      [|split; [cbn; intuition discriminate|reflexivity]].
    unfold print_errmsg_if_io_err, fprintf, fflush.
    destruct (deviceInterface w) eqn:E5; cbn [andb] in H.
    + cbn [outcome globals trace]. rewrite bind_emit.
      destruct (objectRelease_result w =? kIOReturnSuccess); cbn [negb];
        split; cbn; try reflexivity; intuition discriminate.
    + cbn [outcome globals trace]. rewrite bind_emit.
      destruct (objectRelease_result w =? kIOReturnSuccess); cbn [negb];
        split; cbn; try reflexivity; intuition discriminate.
    + destruct (copyMatchingElements_result w =? kIOReturnSuccess) eqn:E6;
        [|split; [cbn; intuition discriminate|reflexivity]].
      cbn [andb] in H. rewrite H.
      cbn [outcome globals trace negb]. rewrite bind_emit.
      split; cbn; try reflexivity; intuition discriminate.
  - cbn [outcome globals trace].
    rewrite bind_unfold, getHIDCookies_run.
    unfold print_errmsg_if_io_err, fprintf, fflush.
    destruct (cookies_malloc_ok w); cbn [negb];
      [|split; [cbn; intuition discriminate|reflexivity]].
    cbn [outcome globals trace]. rewrite bind_emit.
    destruct (objectRelease_result w =? kIOReturnSuccess); cbn [negb];
      split; cbn; try reflexivity; intuition discriminate.
Qed.

(** X15: once the option loop has returned, the device is opened if and
    only if the whole set-up went through: a service was found, its class
    name read, the plug-in interface created, the device interface queried
    and not null, the cookie record allocated, the element list copied and
    the device object released.  If any of these fails the run ends there,
    by [exit] or, for a handle on a null interface, by a fault, and [main]
    does not return. *)
Theorem X15_device_opened_iff_ready (fuel : nat) (opts : list Z) (w : World) :
  first_other_option opts = None ->
  let r := run_main fuel opts w in
  (In deviceOpen (calls (trace r)) <-> device_ready w = true)
  /\ (device_ready w = false ->
      (exists n, outcome r = Exit n /\ n <> 0) \/ outcome r = Fault).
Proof.
  intros Ho. cbv zeta.
  assert (Hp : outcome (parse_options opts initial_globals) = Ret tt)
    by (rewrite (parse_options_only_k opts initial_globals Ho); reflexivity).
  unfold run_main. rewrite (main_run fuel opts w initial_globals Hp).
  cbv zeta. set (g := globals (parse_options opts initial_globals)).
  cbn [trace outcome].
  destruct (device_ready w) eqn:Hd.
  - split; [|discriminate]. split; [reflexivity|intros _].
    destruct (setupAndRun_opens fuel w g Hd) as (t & ->).
    rewrite calls_app. apply in_or_app. right. left. reflexivity.
  - destruct (setupAndRun_stops fuel w g Hd) as [H1 H2].
    split; [split; [intros H; contradiction|discriminate]|].
    intros _.
    pose proof (exits_before_open_setupAndRun fuel w g) as He.
    destruct (outcome (setupAndRun fuel w g)) as [[]|n| |];
      try discriminate.
    + left. exists n. split; [reflexivity|].
      destruct (He n eq_refl) as ([-> | ->] & _); discriminate.
    + right. reflexivity.
Qed.

Lemma X15_device_opened_iff_ready_witness :
  In deviceOpen (calls (trace (run_main 3 [opt_k] plain_world))).
Proof.
  apply (proj1 (X15_device_opened_iff_ready 3 [opt_k] plain_world eq_refl)).
  reflexivity.
Defined.

(** ** Messages of the callback *)

Lemma KeynoteChangeSlide_stderr eventID build send g :
  written stderr (trace (KeynoteChangeSlide eventID build send g))
  = if (build =? noErr) && (send =? noErr) then []
    else [if build =? noErr
          then ("Failed to send Apple event (error " ++ fmt_d send ++ ")."
                ++ nl)%string
          else ("Failed to build Apple event (error " ++ fmt_d build ++ ")."
                ++ nl)%string].
Proof.
  destruct (Z.eqb_spec build noErr) as [->|Hb].
  - rewrite KeynoteChangeSlide_built. cbn [trace andb].
    destruct (send =? noErr); reflexivity.
  - rewrite KeynoteChangeSlide_build_failed by assumption. reflexivity.
Qed.

Lemma dispatch_event_stderr event build send g :
  written stderr (trace (dispatch_event event build send g))
  = match requests_of g event with
    | [] => []
    | _ :: _ =>
        written stderr (trace (KeynoteChangeSlide slideForward build send g))
    end.
Proof.
  unfold requests_of.
  rewrite dispatch_event_requests, dispatch_event_trace. cbn [written].
  destruct (negb (value event =? 0) && negb (driveKeynote g =? 0));
    [|reflexivity].
  destruct (elementCookie event =? buttonNextID g); [reflexivity|].
  destruct (elementCookie event =? buttonPreviousID g); [|reflexivity].
  rewrite !KeynoteChangeSlide_stderr. reflexivity.
Qed.

Lemma callback_loop_stderr_length fuel env : forall i g,
  (List.length (written stderr (trace (callback_loop fuel env i g)))
   <= List.length (slide_requests (trace (callback_loop fuel env i g))))%nat.
Proof.
  induction fuel as [|fuel IH]; intros i g; [cbn; lia|].
  rewrite callback_loop_S.
  destruct (fst (nextEvent env i) =? 0); [|cbn; lia].
  cbn [trace written slide_requests].
  rewrite written_app, slide_requests_app, !length_app.
  specialize (IH (S i) g).
  rewrite dispatch_event_stderr, requests_of_dispatch.
  pose proof (requests_of_length g (snd (nextEvent env i))) as Hl.
  destruct (requests_of g (snd (nextEvent env i))) as [|x l];
    [cbn; lia|].
  rewrite KeynoteChangeSlide_stderr.
  destruct ((aeBuild env i =? noErr) && (aeSend env i =? noErr));
    cbn [List.length] in *; lia.
Qed.

Lemma callback_loop_stderr_none fuel env :
  (forall i, aeBuild env i = noErr /\ aeSend env i = noErr) ->
  forall i g, written stderr (trace (callback_loop fuel env i g)) = [].
Proof.
  intros Hae. induction fuel as [|fuel IH]; intros i g; [reflexivity|].
  rewrite callback_loop_S.
  destruct (fst (nextEvent env i) =? 0); [|reflexivity].
  cbn [trace written]. rewrite written_app, IH, app_nil_r.
  rewrite dispatch_event_stderr.
  destruct (requests_of g (snd (nextEvent env i))); [reflexivity|].
  rewrite KeynoteChangeSlide_stderr.
  destruct (Hae i) as [-> ->]. reflexivity.
Qed.

(** X16: an invocation of the callback writes to standard error only for
    an Apple event that could not be built or sent, one message for each:
    it writes at most as many messages as it requested slide steps, and none
    when every build and send answers [noErr] or when [driveKeynote] is
    zero. *)
Theorem X16_callback_messages (fuel : nat) (env : QueueEnv) (g : Globals) :
  let r := QueueCallbackFunction fuel env g in
  (List.length (written stderr (trace r))
   <= List.length (slide_requests (trace r)))%nat
  /\ ((forall i, aeBuild env i = noErr /\ aeSend env i = noErr) ->
      written stderr (trace r) = [])
  /\ (driveKeynote g = 0 -> written stderr (trace r) = []).
Proof.
  cbv zeta. unfold QueueCallbackFunction.
  pose proof (callback_loop_stderr_length fuel env 0%nat g) as Hl.
  split; [exact Hl|]. split.
  - intros H. apply callback_loop_stderr_none, H.
  - intros Hd. rewrite callback_loop_requests in Hl.
    rewrite flat_map_nil in Hl
      by (intros e _; apply requests_of_off, Hd).
    destruct (written stderr (trace (callback_loop fuel env 0 g)));
      [reflexivity|cbn in Hl; lia].
Qed.

Lemma X16_callback_messages_witness :
  written stderr (trace (QueueCallbackFunction 3 two_events
                           resolved_forwarding)) = [].
Proof.
  apply (proj1 (proj2 (X16_callback_messages 3 two_events
                         resolved_forwarding))).
  intros i. split; reflexivity.
Defined.
